(** * newsreadr: relevance scoring and item lifecycle

    A shallow embedding of the scoring and storage code of the news reader:
    - [models]   : the records of [pkg/models] (Feed, Article, UserInterest,
                   ReadArticle);
    - [database] : the SQLite store of [internal/database], its tables as
                   lists of rows and every statement as a function on them;
    - [ai]       : [internal/ai], cosine similarity and article scoring
                   against the embedding provider;
    - [feed]     : [internal/feed], conversion and storing of parsed feed
                   items;
    - [tui]      : the commands of [internal/tui] that drive the store.

    Conventions.  A Go [float64] is a primitive binary64 float, so every
    arithmetic step rounds as the program's does.  A Go [string] is a
    [string] (a sequence of bytes), a [[]byte] a list of bytes, an [int64]
    an integer, a [time.Duration] an integer number of nanoseconds whose
    products wrap at 64 bits ([wrap64]).  A function that returns
    [(T, error)] returns a pair of a [T] and an [option error].

    Times.  The store is [modernc.org/sqlite], which writes a [time.Time]
    as the text of its [String()] and compares the column as text.  What
    the statements of [database] order and compare is therefore the
    wall-clock reading of a time in the zone the time carries, not its
    instant: [models.Time] is that reading, in nanoseconds, and
    [GoTime.stored] gives it for an instant and a zone.  (Two times with
    one reading are ordered by the rest of their texts; the integer
    leaves that case out, and the statements about the window are
    written so that they hold whichever way it falls.)

    Connections.  [PRAGMA foreign_keys = ON] is executed once, on one
    connection of the pool of [database/sql]; a statement that runs on
    another connection neither checks nor cascades foreign keys.  The
    statements that delete take the setting of their connection as an
    argument; AddArticle and MarkArticleRead are written for the
    connection that carries the pragma, and [MarkArticleRead_on] is the
    same INSERT on any connection. *)

From Stdlib Require Import ZArith List String Ascii Bool Lia.
From Stdlib Require Import Floats Permutation Sorted.
From Stdlib Require Import Reals.
Import ListNotations.

Local Open Scope Z_scope.

(** ** Arithmetic

    [CosineSimilarity] is written once over the operations it uses and read
    at two arithmetics: binary64 (what the program computes) and the real
    numbers (what its formula means). *)

Class Arith (F : Type) : Type := {
  f_zero : F;
  f_add : F -> F -> F;
  f_mul : F -> F -> F;
  f_div : F -> F -> F;
  f_sqrt : F -> F;
  f_eqb : F -> F -> bool
}.

#[export] Instance float64 : Arith float := {
  f_zero := PrimFloat.zero;
  f_add := PrimFloat.add;
  f_mul := PrimFloat.mul;
  f_div := PrimFloat.div;
  f_sqrt := PrimFloat.sqrt;
  f_eqb := PrimFloat.eqb
}.

Definition Req_bool (x y : R) : bool :=
  if Req_dec_T x y then true else false.

#[export] Instance real : Arith R := {
  f_zero := 0%R;
  f_add := Rplus;
  f_mul := Rmult;
  f_div := Rdiv;
  f_sqrt := R_sqrt.sqrt;
  f_eqb := Req_bool
}.

Module Float64.

(** A NaN is the only float that differs from itself. *)
Definition is_nan (x : float) : bool := negb (PrimFloat.eqb x x).

(** The position of a float on the line, as a triple compared
    lexicographically: the order of SQLite's REAL and of Go's [<]. *)
Definition key (f : spec_float) : Z * Z * Z :=
  match f with
  | S754_nan => (0, 0, 0)
  | S754_zero _ => (0, 0, 0)
  | S754_infinity true => (-2, 0, 0)
  | S754_infinity false => (2, 0, 0)
  | S754_finite true m e => (-1, - e, - Z.pos m)
  | S754_finite false m e => (1, e, Z.pos m)
  end.

Definition lex3 (p q : Z * Z * Z) : comparison :=
  let '(a1, b1, c1) := p in
  let '(a2, b2, c2) := q in
  match Z.compare a1 a2 with
  | Eq => match Z.compare b1 b2 with Eq => Z.compare c1 c2 | o => o end
  | o => o
  end.

End Float64.

(** ** pkg/models *)

Module models.

(** A timestamp as the store orders it: the wall-clock reading, in
    nanoseconds, of the text ["2006-01-02 15:04:05.999999999 -0700 MST"]
    the driver writes for a [time.Time]. *)
Definition Time := Z.
Definition Duration := Z.

(** [time.Hour], in nanoseconds. *)
Definition Hour : Duration := 3600 * 1000000000.

(** An [int64] result: the integer taken modulo 2^64 into
    [-2^63, 2^63). *)
Definition wrap64 (z : Z) : Z := (z + 2 ^ 63) mod 2 ^ 64 - 2 ^ 63.

(** A Go [time.Time]: an instant (nanoseconds since the epoch, UTC) and
    the offset east of UTC of the zone it is expressed in.  [gofeed] hands
    over a parsed feed date in UTC (offset 0); [time.Now()] carries the
    local zone. *)
Module GoTime.
Record t : Type := mk {
  instant : Z;
  offset : Z
}.

(** What the store holds and compares for the time. *)
Definition stored (x : t) : Time := instant x + offset x.

(** [t.Add(d)] *)
Definition Add (x : t) (d : Duration) : t := mk (instant x + d) (offset x).
End GoTime.

Module Feed.
Record t : Type := mk {
  ID : Z;
  URL : string;
  Name : string;
  Enabled : bool;
  CreatedAt : Time
}.
End Feed.

Module Article.
Record t : Type := mk {
  ID : Z;
  FeedID : Z;
  Title : string;
  URL : string;
  Content : string;
  Description : string;
  PublishedAt : Time;
  FetchedAt : Time;
  RelevanceScore : float
}.

Definition with_RelevanceScore (score : float) (a : t) : t :=
  mk (ID a) (FeedID a) (Title a) (URL a) (Content a) (Description a)
     (PublishedAt a) (FetchedAt a) score.

Definition with_row (id : Z) (fetched : Time) (a : t) : t :=
  mk id (FeedID a) (Title a) (URL a) (Content a) (Description a)
     (PublishedAt a) fetched (RelevanceScore a).
End Article.

Module UserInterest.
Record t : Type := mk {
  ID : Z;
  Description : string;
  Weight : float;
  Embedding : list Byte.byte
}.

Definition with_Embedding (e : list Byte.byte) (i : t) : t :=
  mk (ID i) (Description i) (Weight i) e.
End UserInterest.

Module ReadArticle.
Record t : Type := mk {
  ArticleID : Z;
  ReadAt : Time
}.
End ReadArticle.

End models.

Import models.

(** The errors the embedded functions return, one per [fmt.Errorf] site. *)
Inductive error : Type :=
| ErrInsertingArticle        (* "inserting article: ..." *)
| ErrMarkingArticleAsRead    (* "marking article as read: ..." *)
| ErrGettingArticleEmbedding (* "getting article embedding: ..." *)
| ErrUnmarshalingInterest    (* "unmarshaling interest embedding: ..." *)
| ErrParsingFeed.            (* "parsing feed ...: ..." *)

(** ** internal/database *)

Module database.

(** The tables of [initSchema], each a list of rows in insertion order,
    and the AUTOINCREMENT counter of [articles]. *)
Record DB : Type := mkDB {
  feeds : list Feed.t;
  articles : list Article.t;
  user_interests : list UserInterest.t;
  read_articles : list ReadArticle.t;
  articles_seq : Z
}.

Definition with_articles (rows : list Article.t) (db : DB) : DB :=
  mkDB (feeds db) rows (user_interests db) (read_articles db) (articles_seq db).

Definition has_feed (db : DB) (id : Z) : bool :=
  existsb (fun f => Feed.ID f =? id) (feeds db).

Definition has_article (db : DB) (id : Z) : bool :=
  existsb (fun a => Article.ID a =? id) (articles db).

Definition has_url (db : DB) (url : string) : bool :=
  existsb (fun a => String.eqb (Article.URL a) url) (articles db).

(** [r.article_id IS NULL] after the LEFT JOIN: no marker for the row. *)
Definition is_read (db : DB) (id : Z) : bool :=
  existsb (fun r => ReadArticle.ArticleID r =? id) (read_articles db).

(** AddArticle: a plain INSERT.  It fails on a url already present (UNIQUE)
    and on a feed that does not exist (FOREIGN KEY, on the connection
    that carries the pragma);
    otherwise the row gets the next id and [time.Now()] as fetched_at. *)
Definition AddArticle (db : DB) (now : Time) (article : Article.t)
  : DB * option error :=
  if has_url db (Article.URL article) || negb (has_feed db (Article.FeedID article))
  then (db, Some ErrInsertingArticle)
  else
    let id := articles_seq db + 1 in
    (mkDB (feeds db)
          (articles db ++ [Article.with_row id now article])
          (user_interests db) (read_articles db) id,
     None).

(** ORDER BY a.relevance_score DESC, a.published_at DESC: row [a] may stand
    before row [b]. *)
Definition precedes (a b : Article.t) : bool :=
  PrimFloat.ltb (Article.RelevanceScore b) (Article.RelevanceScore a)
  || (PrimFloat.eqb (Article.RelevanceScore a) (Article.RelevanceScore b)
      && (Article.PublishedAt b <=? Article.PublishedAt a)).

Fixpoint insert_row (a : Article.t) (rows : list Article.t) : list Article.t :=
  match rows with
  | [] => [a]
  | b :: rows' =>
      if precedes a b then a :: b :: rows' else b :: insert_row a rows'
  end.

(** Rows that tie on both keys come out in insertion order; SQL leaves
    their order open. *)
Definition order_by (rows : list Article.t) : list Article.t :=
  fold_right insert_row [] rows.

(** [time.Now().Add(-maxAge)], the negation being an [int64] one. *)
Definition cutoff_at (now : Time) (maxAge : Duration) : Time :=
  now + wrap64 (- maxAge).

(** The WHERE clause of GetUnreadArticles. *)
Definition unread_since (db : DB) (cutoff : Time) (a : Article.t) : bool :=
  negb (is_read db (Article.ID a)) && (cutoff <=? Article.PublishedAt a).

(** GetUnreadArticles, [now] being what the store reads for
    [time.Now()], the local wall clock. *)
Definition GetUnreadArticles (db : DB) (now : Time) (maxAge : Duration)
  : list Article.t :=
  let cutoff := cutoff_at now maxAge in
  order_by (filter (unread_since db cutoff) (articles db)).

(** MarkArticleRead: a plain INSERT into [read_articles], whose
    [article_id] is the PRIMARY KEY and references [articles(id)]. *)
Definition MarkArticleRead (db : DB) (now : Time) (articleID : Z)
  : DB * option error :=
  if is_read db articleID || negb (has_article db articleID)
  then (db, Some ErrMarkingArticleAsRead)
  else
    (mkDB (feeds db) (articles db) (user_interests db)
          (read_articles db ++ [ReadArticle.mk articleID now])
          (articles_seq db),
     None).

(** The same INSERT on an arbitrary connection of the pool:
    [foreign_keys] tells whether that connection checks the reference to
    [articles(id)]; the primary key is checked on every connection. *)
Definition MarkArticleRead_on (foreign_keys : bool) (db : DB) (now : Time)
    (articleID : Z) : DB * option error :=
  if is_read db articleID || (foreign_keys && negb (has_article db articleID))
  then (db, Some ErrMarkingArticleAsRead)
  else
    (mkDB (feeds db) (articles db) (user_interests db)
          (read_articles db ++ [ReadArticle.mk articleID now])
          (articles_seq db),
     None).

Definition GetInterests (db : DB) : list UserInterest.t := user_interests db.

(** What a REAL column gives back for a float written to it: a zero of
    either sign comes back as [+0], every other number as itself.  A NaN
    is written as NULL; here the row keeps the NaN, which stands for that
    NULL: the program cannot read such a row back (Scan fails on it). *)
Definition REAL (x : float) : float :=
  if PrimFloat.eqb x 0%float then 0%float else x.

(** UpdateArticleRelevance: UPDATE articles SET relevance_score = ? WHERE id = ?. *)
Definition UpdateArticleRelevance (db : DB) (articleID : Z) (score : float) : DB :=
  with_articles
    (map (fun a => if Article.ID a =? articleID
                   then Article.with_RelevanceScore (REAL score) a else a)
         (articles db))
    db.

(** GetArticleByID: the row with that id; [None] (a nil article and no
    error, [sql.ErrNoRows]) when there is none.  Like GetUnreadArticles it
    is written for rows that can be read back, those whose score is a
    number: on another row the Scan, and with it the call, fails. *)
Definition GetArticleByID (db : DB) (id : Z) : option Article.t :=
  find (fun a => Article.ID a =? id) (articles db).

(** A DELETE on [articles]: the doomed rows go, and on a connection with
    [foreign_keys] on the read markers that reference one of them go with
    them (ON DELETE CASCADE); on another connection the markers stay. *)
Definition delete_articles (foreign_keys : bool) (doomed : Article.t -> bool)
    (db : DB) : DB :=
  mkDB (feeds db)
       (filter (fun a => negb (doomed a)) (articles db))
       (user_interests db)
       (if foreign_keys then
          filter (fun r => negb (existsb (fun a => doomed a
                                               && (Article.ID a =? ReadArticle.ArticleID r))
                                          (articles db)))
                 (read_articles db)
        else read_articles db)
       (articles_seq db).

(** DeleteReadArticles: DELETE FROM articles WHERE id IN (SELECT article_id
    FROM read_articles). *)
Definition DeleteReadArticles (foreign_keys : bool) (db : DB) : DB :=
  delete_articles foreign_keys (fun a => is_read db (Article.ID a)) db.

(** DeleteOldArticles: DELETE FROM articles WHERE published_at < cutoff. *)
Definition DeleteOldArticles (foreign_keys : bool) (db : DB) (now : Time)
    (maxAge : Duration) : DB :=
  let cutoff := cutoff_at now maxAge in
  delete_articles foreign_keys (fun a => Article.PublishedAt a <? cutoff) db.

(** DeleteFeed: DELETE FROM feeds WHERE id = ?.  With [foreign_keys] on,
    the articles of a deleted feed go with it, and their read markers with
    them (ON DELETE CASCADE twice); otherwise only the feed's row goes. *)
Definition DeleteFeed (foreign_keys : bool) (db : DB) (id : Z) : DB :=
  if foreign_keys && has_feed db id then
    let db' := delete_articles true (fun a => Article.FeedID a =? id) db in
    mkDB (filter (fun f => negb (Feed.ID f =? id)) (feeds db'))
         (articles db') (user_interests db') (read_articles db') (articles_seq db')
  else
    mkDB (filter (fun f => negb (Feed.ID f =? id)) (feeds db))
         (articles db) (user_interests db) (read_articles db) (articles_seq db).

(** ORDER BY created_at DESC. *)
Fixpoint insert_feed (f : Feed.t) (rows : list Feed.t) : list Feed.t :=
  match rows with
  | [] => [f]
  | g :: rows' =>
      if Feed.CreatedAt g <=? Feed.CreatedAt f then f :: g :: rows'
      else g :: insert_feed f rows'
  end.

Definition GetFeeds (db : DB) : list Feed.t :=
  fold_right insert_feed [] (feeds db).

Definition GetEnabledFeeds (db : DB) : list Feed.t :=
  fold_right insert_feed [] (filter Feed.Enabled (feeds db)).

(** The id AUTOINCREMENT gives a new interest: one more than the largest
    id the table ever held, which is the largest it holds, since no
    statement of the program deletes an interest. *)
Definition next_interest_id (db : DB) : Z :=
  fold_right Z.max 0 (map UserInterest.ID (user_interests db)) + 1.

(** AddInterest: a plain INSERT into [user_interests], which has no
    constraint besides its key. *)
Definition AddInterest (db : DB) (interest : UserInterest.t) : DB :=
  mkDB (feeds db) (articles db)
       (user_interests db
          ++ [UserInterest.mk (next_interest_id db)
                              (UserInterest.Description interest)
                              (UserInterest.Weight interest)
                              (UserInterest.Embedding interest)])
       (read_articles db) (articles_seq db).

End database.

Import database.

(** ** internal/ai *)

Module ai.

Section Similarity.
Context {F : Type} {arith : Arith F}.

(** The loop of CosineSimilarity, [for i := range a], over two slices of
    one length: the three running sums. *)
Fixpoint sums (a b : list F) (dotProduct normA normB : F) : F * F * F :=
  match a, b with
  | x :: a', y :: b' =>
      sums a' b' (f_add dotProduct (f_mul x y))
           (f_add normA (f_mul x x)) (f_add normB (f_mul y y))
  | _, _ => (dotProduct, normA, normB)
  end.

Definition CosineSimilarity (a b : list F) : F :=
  if negb (List.length a =? List.length b)%nat then f_zero
  else
    let '(dotProduct, normA, normB) := sums a b f_zero f_zero f_zero in
    if f_eqb normA f_zero || f_eqb normB f_zero then f_zero
    else f_div dotProduct (f_mul (f_sqrt normA) (f_sqrt normB)).
End Similarity.

(** The requests made to the embedding provider so far, oldest first. *)
Definition Log := list string.

Section Scoring.
(** The embedding provider behind [GetEmbedding]: what it answers to a
    prompt, which may depend on the requests it has already served;
    [None] is any failure of the call. *)
Variable provider : Log -> string -> option (list float).
(** [json.Unmarshal] into a [[]float64] and [json.Marshal] of one. *)
Variable json_Unmarshal : list Byte.byte -> option (list float).
Variable json_Marshal : list float -> list Byte.byte.

Definition GetEmbedding (text : string) (log : Log)
  : option (list float) * Log :=
  (provider log text, log ++ [text]).

(** [fmt.Sprintf("%s. %s", article.Title, article.Description)] *)
Definition articleText (article : Article.t) : string :=
  (Article.Title article ++ ". " ++ Article.Description article)%string.

(** The loop of ScoreArticle over the interests.  [interest] is the
    loop's own copy of the slice element: the embedding assigned to it
    lives until the end of the iteration and nowhere else. *)
Fixpoint score_interests (articleEmb : list float)
    (interests : list UserInterest.t)
    (totalScore totalWeight : float) (log : Log)
  : (float * float + error) * Log :=
  match interests with
  | [] => (inl (totalScore, totalWeight), log)
  | interest :: rest =>
      match UserInterest.Embedding interest with
      | _ :: _ =>
          match json_Unmarshal (UserInterest.Embedding interest) with
          | None => (inr ErrUnmarshalingInterest, log)
          | Some interestEmb =>
              let similarity := CosineSimilarity articleEmb interestEmb in
              score_interests articleEmb rest
                (totalScore + similarity * UserInterest.Weight interest)%float
                (totalWeight + UserInterest.Weight interest)%float
                log
          end
      | [] =>
          let '(r, log') := GetEmbedding (UserInterest.Description interest) log in
          match r with
          | None => score_interests articleEmb rest totalScore totalWeight log'
          | Some interestEmb =>
              let embData := json_Marshal interestEmb in
              let interest := UserInterest.with_Embedding embData interest in
              let similarity := CosineSimilarity articleEmb interestEmb in
              score_interests articleEmb rest
                (totalScore + similarity * UserInterest.Weight interest)%float
                (totalWeight + UserInterest.Weight interest)%float
                log'
          end
      end
  end.

Definition ScoreArticle (article : Article.t)
    (interests : list UserInterest.t) (log : Log)
  : (float * option error) * Log :=
  let '(r, log) := GetEmbedding (articleText article) log in
  match r with
  | None => ((0%float, Some ErrGettingArticleEmbedding), log)
  | Some articleEmb =>
      match score_interests articleEmb interests 0%float 0%float log with
      | (inr e, log) => ((0%float, Some e), log)
      | (inl (totalScore, totalWeight), log) =>
          if PrimFloat.eqb totalWeight 0%float then ((0%float, None), log)
          else (((totalScore / totalWeight)%float, None), log)
      end
  end.

(** The loop of ScoreAllUnscored over the unread articles. *)
Fixpoint score_articles (interests : list UserInterest.t)
    (articles : list Article.t) (db : DB) (log : Log) : DB * Log :=
  match articles with
  | [] => (db, log)
  | article :: rest =>
      if PrimFloat.ltb 0%float (Article.RelevanceScore article)
      then score_articles interests rest db log
      else
        let '((score, err), log) := ScoreArticle article interests log in
        match err with
        | Some _ => score_articles interests rest db log
        | None =>
            score_articles interests rest
              (UpdateArticleRelevance db (Article.ID article) score) log
        end
  end.

(** ScoreAllUnscored, with [time.Now()] read as [now].  It returns the
    store and the provider log it leaves; its own error results only pass
    on failures of the store connection, which the tables as lists do not
    have. *)
Definition ScoreAllUnscored (db : DB) (now : Time) (maxAgeDays : Z) (log : Log)
  : DB * Log :=
  let interests := GetInterests db in
  match interests with
  | [] => (db, log)
  | _ :: _ =>
      let maxAge := wrap64 (maxAgeDays * 24 * Hour) in
      let articles := GetUnreadArticles db now maxAge in
      score_articles interests articles db log
  end.
(** AddInterest of the client: nothing is done when an interest with this
    description exists; otherwise the embedding is requested and the
    interest is stored, without an embedding when the request fails. *)
Definition AddInterest (db : DB) (description : string) (weight : float)
    (log : Log) : DB * Log :=
  let interests := GetInterests db in
  if existsb (fun i => String.eqb (UserInterest.Description i) description) interests
  then (db, log)
  else
    let interest := UserInterest.mk 0 description weight [] in
    let '(r, log) := GetEmbedding description log in
    let interest :=
      match r with
      | None => interest
      | Some embedding =>
          UserInterest.with_Embedding (json_Marshal embedding) interest
      end in
    (database.AddInterest db interest, log).
End Scoring.

End ai.

Import ai.

(** ** internal/feed *)

Module feed.

(** The fields of [gofeed.Item] the conversion reads. *)
Module Item.
Record t : Type := mk {
  Title : string;
  Link : string;
  Content : string;
  Description : string;
  PublishedParsed : option Time;
  UpdatedParsed : option Time
}.
End Item.

Definition is_empty (s : string) : bool := String.eqb s "".

Definition convertToArticle (item : Item.t) (feedID : Z) : option Article.t :=
  let publishedAt :=
    match Item.PublishedParsed item with
    | Some t => Some t
    | None => Item.UpdatedParsed item
    end in
  match publishedAt with
  | None => None
  | Some publishedAt =>
      let content :=
        if negb (is_empty (Item.Content item)) then Item.Content item
        else if negb (is_empty (Item.Description item)) then Item.Description item
        else ""%string in
      let description :=
        if is_empty (Item.Description item) && negb (is_empty (Item.Content item))
        then
          if (500 <? String.length (Item.Content item))%nat
          then (String.substring 0 500 (Item.Content item) ++ "...")%string
          else Item.Content item
        else Item.Description item in
      Some (Article.mk 0 feedID (Item.Title item) (Item.Link item)
                       content description publishedAt 0 0%float)
  end.

(** The loop of FetchAndStore over the parsed items. *)
Fixpoint store_items (items : list Item.t) (feedID : Z) (now : Time)
    (db : DB) (newArticles : Z) : DB * Z :=
  match items with
  | [] => (db, newArticles)
  | item :: rest =>
      match convertToArticle item feedID with
      | None => store_items rest feedID now db newArticles
      | Some article =>
          match AddArticle db now article with
          | (_, Some _) => store_items rest feedID now db newArticles
          | (db', None) => store_items rest feedID now db' (newArticles + 1)
          end
      end
  end.

(** FetchAndStore, given what [FetchFeed] returned for the feed's url:
    the parsed items, or [None] for a fetch or parse error. *)
Definition FetchAndStore (rssFeed : option (list Item.t)) (f : Feed.t)
    (now : Time) (db : DB) : DB * (Z * option error) :=
  match rssFeed with
  | None => (db, (0, Some ErrParsingFeed))
  | Some items =>
      let '(db', newArticles) := store_items items (Feed.ID f) now db 0 in
      (db', (newArticles, None))
  end.

Section FetchAll.
(** [FetchFeed]: what fetching and parsing a feed url gives, [None] for an
    error. *)
Variable FetchFeed : string -> option (list Item.t).

(** The loop of FetchAllFeeds over the enabled feeds. *)
Fixpoint fetch_feeds (feeds : list Feed.t) (now : Time) (db : DB) (totalNew : Z)
  : DB * Z :=
  match feeds with
  | [] => (db, totalNew)
  | f :: rest =>
      match FetchAndStore (FetchFeed (Feed.URL f)) f now db with
      | (_, (_, Some _)) => fetch_feeds rest now db totalNew
      | (db', (count, None)) => fetch_feeds rest now db' (totalNew + count)
      end
  end.

Definition FetchAllFeeds (now : Time) (db : DB) : DB * Z :=
  fetch_feeds (GetEnabledFeeds db) now db 0.
End FetchAll.

End feed.

Import feed.

(** ** internal/tui: the commands that drive the store *)

Module tui.

(** [time.Duration(cfg.UI.ArticleMaxAgeDays) * 24 * time.Hour] *)
Definition maxAgeOf (ArticleMaxAgeDays : Z) : Duration :=
  wrap64 (ArticleMaxAgeDays * 24 * Hour).

Definition loadArticles (db : DB) (now : Time) (ArticleMaxAgeDays : Z)
  : list Article.t :=
  GetUnreadArticles db now (maxAgeOf ArticleMaxAgeDays).

(** [enter] in the detail view: MarkArticleRead, then DeleteReadArticles,
    the result of neither looked at.  [fkMark] and [fkDelete] tell whether
    the connection each statement gets has foreign keys on. *)
Definition markReadAndDelete (fkMark fkDelete : bool) (db : DB) (now : Time)
    (articleID : Z) : DB :=
  DeleteReadArticles fkDelete (fst (MarkArticleRead_on fkMark db now articleID)).

(** The [deleteOldArticles] command, with the clock read at [nowDelete] by
    DeleteOldArticles and at [nowLoad] by the final GetUnreadArticles (the
    count it takes first is not used): the store it leaves and the
    articles it loads.  [fkOld] and [fkRead] are the foreign-key settings
    of the connections the two DELETEs get. *)
Definition deleteOldArticles (fkOld fkRead : bool) (db : DB)
    (nowDelete nowLoad : Time) (ArticleMaxAgeDays : Z) : DB * list Article.t :=
  let maxAge := maxAgeOf ArticleMaxAgeDays in
  let db := DeleteOldArticles fkOld db nowDelete maxAge in
  let db := DeleteReadArticles fkRead db in
  (db, GetUnreadArticles db nowLoad maxAge).

End tui.

(** * Vocabulary of the statements *)

Import Float64.

(** The timestamp an item brings from its feed, if any: the published one,
    else the updated one. *)
Definition feed_timestamp (item : Item.t) : option Time :=
  match Item.PublishedParsed item with
  | Some t => Some t
  | None => Item.UpdatedParsed item
  end.

(** How two floats compare: [None] when one of them is a NaN. *)
Definition cmp (x y : float) : option comparison :=
  SFcompare (Prim2SF x) (Prim2SF y).

Abbreviation score := Article.RelevanceScore.

Definition ranked (rows : list Article.t) : Prop :=
  StronglySorted (fun a b => precedes a b = true) rows.

Definition no_nan_score (rows : list Article.t) : Prop :=
  Forall (fun a => is_nan (score a) = false) rows.

Section ScoringVocabulary.
Variable provider : Log -> string -> option (list float).
Variable json_Unmarshal : list Byte.byte -> option (list float).

(** An interest whose cached embedding is present but does not decode. *)
Definition corrupt (i : UserInterest.t) : Prop :=
  UserInterest.Embedding i <> []
  /\ json_Unmarshal (UserInterest.Embedding i) = None.

Definition decodable (i : UserInterest.t) : Prop :=
  UserInterest.Embedding i = []
  \/ exists e, json_Unmarshal (UserInterest.Embedding i) = Some e.

(** The interests that yield a usable embedding, in order, each with its
    weight: a cached embedding that decodes, or else one the provider
    returns when asked (the request is logged either way). *)
Fixpoint usable (interests : list UserInterest.t) (log : Log)
  : list (list float * float) :=
  match interests with
  | [] => []
  | i :: rest =>
      match UserInterest.Embedding i with
      | _ :: _ =>
          match json_Unmarshal (UserInterest.Embedding i) with
          | Some e => (e, UserInterest.Weight i) :: usable rest log
          | None => usable rest log
          end
      | [] =>
          match provider log (UserInterest.Description i) with
          | Some e =>
              (e, UserInterest.Weight i)
                :: usable rest (log ++ [UserInterest.Description i])
          | None => usable rest (log ++ [UserInterest.Description i])
          end
      end
  end.

End ScoringVocabulary.

(** Sum of similarity times weight, and sum of weights, from [s] and [w] on. *)
Definition sum_scores (articleEmb : list float) (l : list (list float * float))
    (s : float) : float :=
  fold_left (fun acc ew => (acc + CosineSimilarity articleEmb (fst ew) * snd ew)%float) l s.

Definition sum_weights (l : list (list float * float)) (w : float) : float :=
  fold_left (fun acc ew => (acc + snd ew)%float) l w.

(** The spec's score: the weighted sum over the total weight, 0 when the
    total weight is 0. *)
Definition weighted_average (articleEmb : list float)
    (l : list (list float * float)) : float :=
  if PrimFloat.eqb (sum_weights l 0%float) 0%float then 0%float
  else (sum_scores articleEmb l 0%float / sum_weights l 0%float)%float.

(** The inner product of two binary64 vectors and the sum of squares of
    one, each added up from the left. *)
Definition inner_product (a b : list float) : float :=
  fold_left (fun acc xy => (acc + fst xy * snd xy)%float) (combine a b) 0%float.

Definition sum_squares (a : list float) : float :=
  fold_left (fun acc x => (acc + x * x)%float) a 0%float.

(** The constraints the schema puts on the article and marker tables:
    primary keys, the unique url, ids no larger than the AUTOINCREMENT
    counter, and the two foreign keys. *)
Record schema_ok (db : DB) : Prop := {
  ids_unique : NoDup (map Article.ID (articles db));
  urls_unique : NoDup (map Article.URL (articles db));
  ids_issued : Forall (fun a => Article.ID a <= articles_seq db) (articles db);
  article_feed :
    Forall (fun a => has_feed db (Article.FeedID a) = true) (articles db);
  markers_unique : NoDup (map ReadArticle.ArticleID (read_articles db));
  marker_article :
    Forall (fun r => has_article db (ReadArticle.ArticleID r) = true)
           (read_articles db)
}.

(** What a stored row of feed [feedID], fetched at [now], looks like. *)
Definition fresh_row (feedID : Z) (now : Time) (a : Article.t) : Prop :=
  Article.FeedID a = feedID /\ Article.FetchedAt a = now
  /\ Article.RelevanceScore a = 0%float.

(** An INSERT of the article would be refused by the url or the feed key. *)
Definition rejected (db : DB) (a : Article.t) : bool :=
  has_url db (Article.URL a) || negb (has_feed db (Article.FeedID a)).

(** Most recently created first. *)
Definition newest_first (rows : list Feed.t) : Prop :=
  StronglySorted (fun f g => Feed.CreatedAt g <= Feed.CreatedAt f) rows.

(** The fetch of the feed succeeds. *)
Definition answers (F : string -> option (list Item.t)) (f : Feed.t) : bool :=
  match F (Feed.URL f) with Some _ => true | None => false end.

(** The descriptions of the interests without a cached embedding. *)
Definition uncached (interests : list UserInterest.t) : list string :=
  map UserInterest.Description
      (filter (fun i => match UserInterest.Embedding i with
                        | [] => true | _ :: _ => false end) interests).

(** An article without its score. *)
Definition unscored (a : Article.t) : Article.t :=
  Article.with_RelevanceScore 0%float a.

(** An interest with this description is stored. *)
Definition has_interest (db : DB) (description : string) : bool :=
  existsb (fun i => String.eqb (UserInterest.Description i) description)
          (user_interests db).

(** A positive or negative zero. *)
Definition is_zero (x : float) : Prop := x = 0%float \/ x = (-0)%float.



(** * Worked data *)

Set Warnings "-inexact-float".

(** A feed with one dated and one undated item, stored into a store that
    holds feed 1 and nothing else. *)
Definition feed1 : Feed.t := Feed.mk 1 "https://example.org/rss" "Example" true 0.
Definition store0 : DB := mkDB [feed1] [] [] [] 0.
Definition item_dated : Item.t :=
  Item.mk "Dated" "https://example.org/a" "body" "summary" None (Some 50).
Definition item_undated : Item.t :=
  Item.mk "Undated" "https://example.org/b" "body" "summary" None None.

(** One unread article in feed 1. *)
Definition article7 : Article.t :=
  Article.mk 7 1 "Title" "https://example.org/7" "body" "summary" 50 60 0%float.
Definition store7 : DB := mkDB [feed1] [article7] [] [] 7.

(** The spec's ordering example: two unread rows tied at 0.9 published at
    100 and 200, one unread row at 0.2, one row that is read and one that
    is too old. *)
Definition store_ranked : DB :=
  mkDB [feed1]
       [Article.mk 1 1 "a" "https://example.org/1" "" "" 100 0 0.9%float;
        Article.mk 2 1 "b" "https://example.org/2" "" "" 200 0 0.9%float;
        Article.mk 3 1 "c" "https://example.org/3" "" "" 150 0 0.2%float;
        Article.mk 4 1 "d" "https://example.org/4" "" "" 300 0 0.95%float;
        Article.mk 5 1 "e" "https://example.org/5" "" "" 10 0 0.99%float]
       [] [ReadArticle.mk 4 400] 5.

(** Two unread, unscored articles of a feed whose dates, as [gofeed]
    hands them over, are in UTC: published at the instants 80 h and 72 h. *)
Definition store_utc_dates : DB :=
  mkDB [feed1]
       [Article.mk 1 1 "recent" "https://example.org/recent" "body" "summary"
                   (GoTime.stored (GoTime.mk (80 * Hour) 0)) (81 * Hour) 0%float;
        Article.mk 2 1 "older" "https://example.org/older" "body" "summary"
                   (GoTime.stored (GoTime.mk (72 * Hour) 0)) (81 * Hour) 0%float]
       [] [] 2.

(** The local time at the instant 100 h, in a zone given by its offset
    east of UTC. *)
Definition UTC : Z := 0.
Definition Tokyo : Z := 9 * Hour.
Definition New_York : Z := - 5 * Hour.
Definition at_100h (zone : Z) : GoTime.t := GoTime.mk (100 * Hour) zone.

(** A body of 600 bytes. *)
Definition long_body : string := String.concat "" (repeat "abcdef"%string 100).

Definition bytes (s : string) : list Byte.byte := list_byte_of_string s.

(** The provider of the examples: it embeds ["golang"] as (1, 0),
    ["cooking"] as (0, 1) and ["contrarian"] as (-1, 0), fails on
    ["offline"], and embeds every other text as (1, 0). *)
Definition example_provider (_ : Log) (text : string) : option (list float) :=
  if String.eqb text "golang" then Some [1%float; 0%float]
  else if String.eqb text "cooking" then Some [0%float; 1%float]
  else if String.eqb text "contrarian" then Some [(-1)%float; 0%float]
  else if String.eqb text "offline" then None
  else Some [1%float; 0%float].

(** [encoding/json] on the documents of the examples: three arrays that
    decode to the vectors above, and ["x"], which is not JSON. *)
Definition example_Unmarshal (data : list Byte.byte) : option (list float) :=
  let doc := string_of_list_byte data in
  if String.eqb doc "[1,0]" then Some [1%float; 0%float]
  else if String.eqb doc "[0,1]" then Some [0%float; 1%float]
  else if String.eqb doc "[-1,0]" then Some [(-1)%float; 0%float]
  else None.

Definition example_Marshal (v : list float) : list Byte.byte :=
  match v with
  | [x; y] =>
      if PrimFloat.eqb x 1%float then bytes "[1,0]"
      else if PrimFloat.eqb y 1%float then bytes "[0,1]"
      else bytes "[-1,0]"
  | _ => bytes "null"
  end.

Abbreviation example_ScoreArticle :=
  (ScoreArticle example_provider example_Unmarshal example_Marshal).
Abbreviation example_ScoreAllUnscored :=
  (ScoreAllUnscored example_provider example_Unmarshal example_Marshal).

Definition golang_uncached : UserInterest.t := UserInterest.mk 1 "golang" 2%float [].
Definition cooking_cached : UserInterest.t :=
  UserInterest.mk 2 "cooking" 1%float (bytes "[0,1]").
Definition offline_uncached : UserInterest.t := UserInterest.mk 3 "offline" 5%float [].
Definition corrupt_cached : UserInterest.t := UserInterest.mk 4 "golang" 1%float (bytes "x").
Definition contrarian_cached : UserInterest.t :=
  UserInterest.mk 5 "contrarian" 1%float (bytes "[-1,0]").

(** An unread article published 10 hours before [now = 100 h], unscored; the
    age window is one day. *)
Definition fresh (id : Z) (title : string) (s : float) : Article.t :=
  Article.mk id 1 title "https://example.org/n" "body" "summary" (90 * Hour) (91 * Hour) s.

Definition store_contrarian : DB :=
  mkDB [feed1] [fresh 1 "Title" 0%float] [contrarian_cached] [] 1.

Definition store_uncached : DB :=
  mkDB [feed1] [fresh 1 "First" 0%float; fresh 2 "Second" 0%float]
       [golang_uncached] [] 2.

(** An article of feed 1 as conversion makes them, not yet stored. *)
Definition article_new : Article.t :=
  Article.mk 0 1 "New" "https://example.org/new" "body" "summary" 70 0 0%float.

(** A store to purge at [now = 100 h] with a window of one day: article 1
    is unread and 10 hours old, article 2 is unread and 90 hours old,
    article 3 is 5 hours old and read. *)
Definition store_purge : DB :=
  mkDB [feed1]
       [Article.mk 1 1 "kept" "https://example.org/kept" "body" "summary"
                   (90 * Hour) (91 * Hour) 0%float;
        Article.mk 2 1 "old" "https://example.org/old" "body" "summary"
                   (10 * Hour) (11 * Hour) 0%float;
        Article.mk 3 1 "read" "https://example.org/read" "body" "summary"
                   (95 * Hour) (96 * Hour) 0%float]
       [] [ReadArticle.mk 3 (97 * Hour)] 3.

(** An article scored 0.5 and an unscored one, both unread and inside the
    window, with the contrarian interest. *)
Definition store_half_scored : DB :=
  mkDB [feed1]
       [fresh 1 "Scored" 0.5%float;
        Article.mk 2 1 "Unscored" "https://example.org/u" "body" "summary"
                   (90 * Hour) (91 * Hour) 0%float]
       [contrarian_cached] [] 2.

(** Three feeds: feed 1 answers, [feed_down] is enabled and its fetch
    fails, [feed_off] would answer and is disabled. *)
Definition feed_down : Feed.t := Feed.mk 2 "https://example.org/down" "Down" true 1.
Definition feed_off : Feed.t := Feed.mk 3 "https://example.org/off" "Off" false 2.
Definition store_three_feeds : DB := mkDB [feed1; feed_down; feed_off] [] [] [] 0.

Definition fetch_example (url : string) : option (list Item.t) :=
  if String.eqb url (Feed.URL feed_down) then None
  else if String.eqb url (Feed.URL feed_off)
       then Some [Item.mk "Off" "https://example.org/o" "body" "summary" (Some 50) None]
       else Some [item_dated].

(** A provider that is down. *)
Definition provider_down (_ : Log) (_ : string) : option (list float) := None.

(** * Properties *)

(** ** Strings as byte sequences *)

Lemma length_append (s1 s2 : string) :
  String.length (s1 ++ s2) = (String.length s1 + String.length s2)%nat.
Proof.
  induction s1 as [|c s1 IH]; simpl; [reflexivity | now rewrite IH].
Qed.

Lemma substring_0_prefix (n : nat) (s : string) :
  (n <= String.length s)%nat ->
  exists tail, s = (substring 0 n s ++ tail)%string
               /\ String.length (substring 0 n s) = n.
Proof.
  revert s; induction n as [|n IH]; intros s Hn.
  - exists s. destruct s; simpl; split; reflexivity.
  - destruct s as [|c s]; simpl in Hn; [lia|].
    destruct (IH s) as [tail [Hs Hl]]; [lia|].
    exists tail. simpl. split; [now rewrite <- Hs | now rewrite Hl].
Qed.

Lemma is_empty_true (s : string) : is_empty s = true <-> s = ""%string.
Proof. apply String.eqb_eq. Qed.

Lemma is_empty_false (s : string) : is_empty s = false <-> s <> ""%string.
Proof. apply String.eqb_neq. Qed.

(** ** Conversion of feed items (internal/feed) *)

Lemma convertToArticle_PublishedAt (item : Item.t) (feedID : Z) :
  option_map Article.PublishedAt (convertToArticle item feedID)
  = feed_timestamp item.
Proof.
  unfold convertToArticle, feed_timestamp.
  destruct (Item.PublishedParsed item) as [t|]; [reflexivity|].
  destruct (Item.UpdatedParsed item) as [u|]; reflexivity.
Qed.

Lemma convertToArticle_None (item : Item.t) (feedID : Z) :
  convertToArticle item feedID = None <-> feed_timestamp item = None.
Proof.
  rewrite <- (convertToArticle_PublishedAt item feedID).
  destruct (convertToArticle item feedID); simpl; split; congruence.
Qed.

Lemma AddArticle_rows (db db' : DB) (now : Time) (article : Article.t) :
  AddArticle db now article = (db', None) ->
  articles db' = articles db ++ [Article.with_row (articles_seq db + 1) now article].
Proof.
  unfold AddArticle.
  destruct (has_url db (Article.URL article)
            || negb (has_feed db (Article.FeedID article)));
    intros H; inversion H; reflexivity.
Qed.

Lemma AddArticle_rejected (db db' : DB) (now : Time) (article : Article.t) (e : error) :
  AddArticle db now article = (db', Some e) -> db' = db.
Proof.
  unfold AddArticle.
  destruct (has_url db (Article.URL article)
            || negb (has_feed db (Article.FeedID article)));
    intros H; inversion H; reflexivity.
Qed.

(** Every row [store_items] leaves in [articles] was there before or carries
    the feed timestamp of one of the items. *)
Lemma store_items_rows (items : list Item.t) (feedID : Z) (now : Time) :
  forall (db : DB) (n : Z) (a : Article.t),
    In a (articles (fst (store_items items feedID now db n))) ->
    In a (articles db)
    \/ exists item, In item items
                    /\ feed_timestamp item = Some (Article.PublishedAt a).
Proof.
  induction items as [|item rest IH]; intros db n a Ha; simpl in Ha.
  - now left.
  - destruct (convertToArticle item feedID) as [article|] eqn:Hc.
    + destruct (AddArticle db now article) as [db' [e|]] eqn:Hadd.
      * destruct (IH _ _ _ Ha) as [Hin | [it [Hit Hts]]];
          [now left | right; exists it; split; [now right | exact Hts]].
      * destruct (IH _ _ _ Ha) as [Hin | [it [Hit Hts]]].
        -- rewrite (AddArticle_rows _ _ _ _ Hadd) in Hin.
           apply in_app_or in Hin. destruct Hin as [Hin | [Heq | []]]; [now left|].
           right. exists item. split; [now left|]. subst a.
           rewrite <- (convertToArticle_PublishedAt item feedID), Hc.
           reflexivity.
        -- right; exists it; split; [now right | exact Hts].
    + destruct (IH _ _ _ Ha) as [Hin | [it [Hit Hts]]];
        [now left | right; exists it; split; [now right | exact Hts]].
Qed.

(** Items without a timestamp are invisible to [store_items]. *)
Lemma store_items_undated (items : list Item.t) (feedID : Z) (now : Time) :
  forall (db : DB) (n : Z),
    store_items items feedID now db n
    = store_items
        (filter (fun item => match feed_timestamp item with
                             | Some _ => true | None => false end) items)
        feedID now db n.
Proof.
  induction items as [|item rest IH]; intros db n; simpl; [reflexivity|].
  destruct (feed_timestamp item) as [t|] eqn:Ht; simpl.
  - destruct (convertToArticle item feedID) as [article|].
    + destruct (AddArticle db now article) as [db' [e|]]; apply IH.
    + apply IH.
  - apply (convertToArticle_None item feedID) in Ht. rewrite Ht. apply IH.
Qed.

(** C8.  convertToArticle takes the published timestamp of a feed item,
    else its updated timestamp, and yields no article when the item has
    neither; FetchAndStore then stores nothing for such an item, and every
    article row it adds carries the timestamp its feed item brought: no
    row is stored with a made-up [published_at]. *)
Theorem convertToArticle_timestamp_from_feed :
  (forall (item : Item.t) (feedID : Z),
      match Item.PublishedParsed item, Item.UpdatedParsed item with
      | Some t, _ =>
          option_map Article.PublishedAt (convertToArticle item feedID) = Some t
      | None, Some u =>
          option_map Article.PublishedAt (convertToArticle item feedID) = Some u
      | None, None => convertToArticle item feedID = None
      end)
  /\ (forall (items : list Item.t) (f : Feed.t) (now : Time) (db : DB) (a : Article.t),
         In a (articles (fst (FetchAndStore (Some items) f now db))) ->
         In a (articles db)
         \/ exists item, In item items
              /\ (Item.PublishedParsed item = Some (Article.PublishedAt a)
                  \/ (Item.PublishedParsed item = None
                      /\ Item.UpdatedParsed item = Some (Article.PublishedAt a))))
  /\ (forall (items : list Item.t) (f : Feed.t) (now : Time) (db : DB),
         FetchAndStore (Some items) f now db
         = FetchAndStore
             (Some (filter (fun item =>
                              match Item.PublishedParsed item, Item.UpdatedParsed item with
                              | None, None => false
                              | _, _ => true
                              end) items))
             f now db).
Proof.
  split; [|split].
  - intros item feedID.
    pose proof (convertToArticle_PublishedAt item feedID) as H.
    pose proof (convertToArticle_None item feedID) as HN.
    unfold feed_timestamp in *.
    destruct (Item.PublishedParsed item) as [t|]; [exact H|].
    destruct (Item.UpdatedParsed item) as [u|]; [exact H|].
    now apply HN.
  - intros items f now db a Ha.
    unfold FetchAndStore in Ha.
    destruct (store_items items (Feed.ID f) now db 0) as [db' n] eqn:Hs.
    simpl in Ha.
    destruct (store_items_rows items (Feed.ID f) now db 0 a) as [Hin | [it [Hit Hts]]];
      [rewrite Hs; exact Ha | now left |].
    right. exists it. split; [exact Hit|].
    unfold feed_timestamp in Hts.
    destruct (Item.PublishedParsed it) as [t|]; [now left | now right].
  - intros items f now db. unfold FetchAndStore.
    rewrite (store_items_undated items).
    unfold feed_timestamp.
    replace (filter _ items)
      with (filter (fun item =>
                      match Item.PublishedParsed item, Item.UpdatedParsed item with
                      | None, None => false
                      | _, _ => true
                      end) items); [reflexivity|].
    apply filter_ext. intros it.
    destruct (Item.PublishedParsed it), (Item.UpdatedParsed it); reflexivity.
Qed.

Lemma convertToArticle_timestamp_from_feed_witness :
  fst (snd (FetchAndStore (Some [item_undated; item_dated]) feed1 100 store0)) = 1
  /\ map Article.PublishedAt
         (articles (fst (FetchAndStore (Some [item_undated; item_dated]) feed1 100 store0)))
     = [50]
  /\ (In (Article.mk 1 1 "Dated" "https://example.org/a" "body" "summary" 50 100 0%float)
         (articles store0)
      \/ exists item, In item [item_undated; item_dated]
           /\ (Item.PublishedParsed item = Some 50
               \/ (Item.PublishedParsed item = None
                   /\ Item.UpdatedParsed item = Some 50))).
Proof.
  split; [reflexivity | split; [reflexivity|]].
  apply (proj1 (proj2 convertToArticle_timestamp_from_feed)
               [item_undated; item_dated] feed1 100 store0
               (Article.mk 1 1 "Dated" "https://example.org/a" "body" "summary" 50 100 0%float)).
  simpl. left. reflexivity.
Defined.

(** C9 as stated fails on a short body: with no summary and the body
    ["abc"], the description is ["abc"], not ["abc..."]. *)
Lemma convertToArticle_short_body_no_ellipsis :
  option_map Article.Description
    (convertToArticle (Item.mk "t" "https://example.org/c" "abc" "" (Some 1) None) 1)
  = Some "abc"%string
  /\ option_map Article.Description
       (convertToArticle (Item.mk "t" "https://example.org/c" "abc" "" (Some 1) None) 1)
     <> Some "abc..."%string.
Proof. split; [reflexivity | discriminate]. Qed.

(** C9 (amended).  For a converted item: a non-empty summary is the
    description, unchanged; with no summary, a body longer than 500 bytes
    gives its first 500 bytes followed by ["..."] (503 bytes), and a body
    of at most 500 bytes gives the body itself, with no ellipsis. *)
Theorem convertToArticle_description (item : Item.t) (feedID : Z) (a : Article.t) :
  convertToArticle item feedID = Some a ->
  (Item.Description item <> ""%string ->
   Article.Description a = Item.Description item)
  /\ (Item.Description item = ""%string ->
      (500 < String.length (Item.Content item))%nat ->
      exists head tail,
        Item.Content item = (head ++ tail)%string
        /\ String.length head = 500%nat
        /\ Article.Description a = (head ++ "...")%string
        /\ String.length (Article.Description a) = 503%nat)
  /\ (Item.Description item = ""%string ->
      (String.length (Item.Content item) <= 500)%nat ->
      Article.Description a = Item.Content item).
Proof.
  unfold convertToArticle.
  destruct (match Item.PublishedParsed item with
            | Some t => Some t
            | None => Item.UpdatedParsed item
            end) as [publishedAt|]; [|discriminate].
  intros H; inversion H; subst a; clear H; simpl.
  split; [|split].
  - intros Hd. apply is_empty_false in Hd. now rewrite Hd.
  - intros Hd Hlen. apply is_empty_true in Hd. rewrite Hd. simpl.
    destruct (is_empty (Item.Content item)) eqn:Hc.
    + apply is_empty_true in Hc. rewrite Hc in Hlen. simpl in Hlen. lia.
    + simpl. apply Nat.ltb_lt in Hlen. rewrite Hlen.
      apply Nat.ltb_lt in Hlen.
      destruct (substring_0_prefix 500 (Item.Content item)) as [tail [Hs Hl]]; [lia|].
      exists (substring 0 500 (Item.Content item)), tail.
      repeat split; [exact Hs | exact Hl |].
      rewrite length_append, Hl. reflexivity.
  - intros Hd Hlen. pose proof Hd as Hd'. apply is_empty_true in Hd. rewrite Hd. simpl.
    destruct (is_empty (Item.Content item)) eqn:Hc; simpl.
    + apply is_empty_true in Hc. now rewrite Hc, Hd'.
    + apply Nat.ltb_ge in Hlen. now rewrite Hlen.
Qed.

Lemma convertToArticle_description_witness :
  (let item := Item.mk "t" "https://example.org/c" "abc" "" (Some 1) None in
   let a := Article.mk 0 1 "t" "https://example.org/c" "abc" "abc" 1 0 0%float in
   convertToArticle item 1 = Some a
   /\ Article.Description a = Item.Content item)
  /\ (let item := Item.mk "t" "https://example.org/d" long_body "" (Some 1) None in
      exists a head tail,
        convertToArticle item 1 = Some a
        /\ Item.Content item = (head ++ tail)%string
        /\ String.length head = 500%nat
        /\ Article.Description a = (head ++ "...")%string
        /\ String.length (Article.Description a) = 503%nat).
Proof.
  split.
  - split; [reflexivity|].
    apply (convertToArticle_description
             (Item.mk "t" "https://example.org/c" "abc" "" (Some 1) None) 1
             (Article.mk 0 1 "t" "https://example.org/c" "abc" "abc" 1 0 0%float)
             eq_refl); [reflexivity | simpl; lia].
  - destruct (convertToArticle
                (Item.mk "t" "https://example.org/d" long_body "" (Some 1) None) 1)
      as [a|] eqn:Ha; [|discriminate].
    destruct (proj1 (proj2 (convertToArticle_description _ 1 a Ha)))
      as [head [tail H]];
      [reflexivity | apply Nat.ltb_lt; vm_compute; reflexivity |].
    exists a, head, tail. split; [exact Ha | exact H].
Defined.

(** ** Read markers (internal/database) *)

Lemma is_read_after_insert (db : DB) (now : Time) (id : Z) :
  is_read (mkDB (feeds db) (articles db) (user_interests db)
                (read_articles db ++ [ReadArticle.mk id now]) (articles_seq db)) id
  = true.
Proof.
  unfold is_read; simpl. rewrite existsb_app; simpl.
  rewrite Z.eqb_refl. now rewrite orb_true_r.
Qed.

(** C3 as stated fails: the second MarkArticleRead on the same article
    returns an error (the first returned none). *)
Lemma MarkArticleRead_twice_errors :
  snd (MarkArticleRead store7 100 7) = None
  /\ snd (MarkArticleRead (fst (MarkArticleRead store7 100 7)) 101 7)
     = Some ErrMarkingArticleAsRead.
Proof. split; reflexivity. Qed.

(** C3 (amended).  MarkArticleRead on an article that already has a read
    marker leaves the store as it is and returns the error of the rejected
    INSERT; in particular a call that succeeded, repeated at any later time,
    changes nothing and returns that error. *)
Theorem MarkArticleRead_again_is_rejected :
  (forall (db : DB) (now : Time) (id : Z),
      is_read db id = true ->
      MarkArticleRead db now id = (db, Some ErrMarkingArticleAsRead))
  /\ (forall (db db' : DB) (now now' : Time) (id : Z),
         MarkArticleRead db now id = (db', None) ->
         MarkArticleRead db' now' id = (db', Some ErrMarkingArticleAsRead)).
Proof.
  assert (H1 : forall db now id, is_read db id = true ->
                 MarkArticleRead db now id = (db, Some ErrMarkingArticleAsRead)).
  { intros db now id Hr. unfold MarkArticleRead. now rewrite Hr. }
  split; [exact H1|].
  intros db db' now now' id H. apply H1.
  unfold MarkArticleRead in H.
  destruct (is_read db id || negb (has_article db id)); inversion H.
  apply is_read_after_insert.
Qed.

Lemma MarkArticleRead_again_is_rejected_witness :
  MarkArticleRead store7 100 7
  = (mkDB [feed1] [article7] [] [ReadArticle.mk 7 100] 7, None)
  /\ MarkArticleRead (mkDB [feed1] [article7] [] [ReadArticle.mk 7 100] 7) 101 7
     = (mkDB [feed1] [article7] [] [ReadArticle.mk 7 100] 7,
        Some ErrMarkingArticleAsRead).
Proof.
  split; [reflexivity|].
  apply (proj2 MarkArticleRead_again_is_rejected store7 _ 100 101 7).
  reflexivity.
Defined.

(** ** Scoring (internal/ai) *)

Section ScoringFacts.
Variable provider : Log -> string -> option (list float).
Variable json_Unmarshal : list Byte.byte -> option (list float).
Variable json_Marshal : list float -> list Byte.byte.

Local Abbreviation score_interests :=
  (ai.score_interests provider json_Unmarshal json_Marshal).
Local Abbreviation ScoreArticle :=
  (ai.ScoreArticle provider json_Unmarshal json_Marshal).
Local Abbreviation corrupt := (corrupt json_Unmarshal).
Local Abbreviation decodable := (decodable json_Unmarshal).
Local Abbreviation usable := (usable provider json_Unmarshal).



Lemma score_interests_corrupt (articleEmb : list float)
    (pre : list UserInterest.t) (bad : UserInterest.t) :
  corrupt bad ->
  forall (post : list UserInterest.t) (s w : float) (log : Log),
    (exists log', score_interests articleEmb (pre ++ bad :: post) s w log
                  = (inr ErrUnmarshalingInterest, log'))
    /\ score_interests articleEmb (pre ++ bad :: post) s w log
       = score_interests articleEmb (pre ++ [bad]) s w log.
Proof.
  intros [Hne Hbad].
  induction pre as [|i pre IH]; intros post s w log; simpl.
  - destruct (UserInterest.Embedding bad) as [|b bs]; [congruence|].
    rewrite Hbad. split; [eexists|]; reflexivity.
  - destruct (UserInterest.Embedding i) as [|b bs].
    + unfold GetEmbedding.
      destruct (provider log (UserInterest.Description i)) as [e|]; apply IH.
    + destruct (json_Unmarshal (b :: bs)) as [e|]; [apply IH|].
      split; [eexists|]; reflexivity.
Qed.

(** C10.  If some interest carries a non-empty cached embedding that does
    not decode, ScoreArticle returns score 0 with an error; the interests
    after the first such one are not processed (the outcome and the
    provider requests do not depend on them); whereas an interest with no
    cached embedding whose generation fails is skipped and the loop goes
    on with the sums as they were. *)
Theorem ScoreArticle_corrupt_cache_aborts :
  (forall (article : Article.t) (pre post : list UserInterest.t)
          (bad : UserInterest.t) (log : Log),
      corrupt bad ->
      (exists e log',
          ScoreArticle article (pre ++ bad :: post) log = ((0%float, Some e), log'))
      /\ ScoreArticle article (pre ++ bad :: post) log
         = ScoreArticle article (pre ++ [bad]) log)
  /\ (forall (articleEmb : list float) (i : UserInterest.t)
             (rest : list UserInterest.t) (s w : float) (log : Log),
         UserInterest.Embedding i = [] ->
         provider log (UserInterest.Description i) = None ->
         score_interests articleEmb (i :: rest) s w log
         = score_interests articleEmb rest s w (log ++ [UserInterest.Description i])).
Proof.
  split.
  - intros article pre post bad log Hbad.
    unfold ai.ScoreArticle, GetEmbedding.
    destruct (provider log (articleText article)) as [articleEmb|].
    + destruct (score_interests_corrupt articleEmb pre bad Hbad post
                  0%float 0%float (log ++ [articleText article])) as [[log' He] Heq].
      rewrite <- Heq, He.
      split; [do 2 eexists|]; reflexivity.
    + split; [do 2 eexists|]; reflexivity.
  - intros articleEmb i rest s w log He Hp.
    simpl. rewrite He. unfold GetEmbedding. now rewrite Hp.
Qed.

End ScoringFacts.

(** ** The order of binary64 scores *)

Lemma SFcompare_key (f1 f2 : spec_float) :
  f1 <> S754_nan -> f2 <> S754_nan ->
  SFcompare f1 f2 = Some (lex3 (key f1) (key f2)).
Proof.
  intros H1 H2.
  destruct f1 as [s1|s1| |s1 m1 e1], f2 as [s2|s2| |s2 m2 e2]; try congruence;
    try destruct s1; try destruct s2; cbn -[Z.compare]; try reflexivity.
  rewrite Z.compare_opp, (Z.compare_antisym e1 e2).
  change (PosDef.Pos.compare_cont Eq m1 m2) with (Pos.compare m1 m2).
  destruct (e1 ?= e2); cbn; reflexivity.
Qed.

Lemma lex3_Eq (p q : Z * Z * Z) : lex3 p q = Eq <-> p = q.
Proof.
  destruct p as [[a1 b1] c1], q as [[a2 b2] c2]. unfold lex3. split.
  - destruct (Z.compare_spec a1 a2); try discriminate.
    destruct (Z.compare_spec b1 b2); try discriminate.
    destruct (Z.compare_spec c1 c2); try discriminate.
    intros _. congruence.
  - intros H; inversion H. now rewrite !Z.compare_refl.
Qed.

Lemma lex3_antisym (p q : Z * Z * Z) : lex3 q p = CompOpp (lex3 p q).
Proof.
  destruct p as [[a1 b1] c1], q as [[a2 b2] c2]. unfold lex3.
  rewrite (Z.compare_antisym a1 a2), (Z.compare_antisym b1 b2),
    (Z.compare_antisym c1 c2).
  destruct (a1 ?= a2), (b1 ?= b2), (c1 ?= c2); reflexivity.
Qed.

Lemma lex3_Gt_trans (p q r : Z * Z * Z) :
  lex3 p q = Gt -> lex3 q r = Gt -> lex3 p r = Gt.
Proof.
  destruct p as [[a1 b1] c1], q as [[a2 b2] c2], r as [[a3 b3] c3]. unfold lex3.
  destruct (Z.compare_spec a1 a2), (Z.compare_spec a2 a3), (Z.compare_spec a1 a3);
    try lia; try congruence;
    destruct (Z.compare_spec b1 b2), (Z.compare_spec b2 b3), (Z.compare_spec b1 b3);
    try lia; try congruence;
    destruct (Z.compare_spec c1 c2), (Z.compare_spec c2 c3), (Z.compare_spec c1 c3);
    try lia; congruence.
Qed.

Lemma is_nan_false (x : float) : is_nan x = false <-> Prim2SF x <> S754_nan.
Proof.
  unfold is_nan. rewrite eqb_spec. unfold SFeqb. split.
  - intros H Hn. rewrite Hn in H. discriminate.
  - intros Hn. rewrite (SFcompare_key _ _ Hn Hn).
    now rewrite (proj2 (lex3_Eq _ _) eq_refl).
Qed.

Lemma cmp_key (x y : float) :
  is_nan x = false -> is_nan y = false ->
  cmp x y = Some (lex3 (key (Prim2SF x)) (key (Prim2SF y))).
Proof.
  intros Hx Hy. apply SFcompare_key; now apply is_nan_false.
Qed.

Lemma cmp_some_not_nan (x y : float) (c : comparison) :
  cmp x y = Some c -> is_nan x = false /\ is_nan y = false.
Proof.
  unfold cmp. intros H. split; apply is_nan_false; intros Hn; rewrite Hn in H.
  - discriminate.
  - destruct (Prim2SF x) as [ | [|] | | ]; discriminate.
Qed.

Lemma ltb_cmp (x y : float) : PrimFloat.ltb x y = true <-> cmp x y = Some Lt.
Proof.
  rewrite ltb_spec. unfold SFltb, cmp.
  destruct (SFcompare (Prim2SF x) (Prim2SF y)) as [[| |]|]; split; congruence.
Qed.

Lemma eqb_cmp (x y : float) : PrimFloat.eqb x y = true <-> cmp x y = Some Eq.
Proof.
  rewrite eqb_spec. unfold SFeqb, cmp.
  destruct (SFcompare (Prim2SF x) (Prim2SF y)) as [[| |]|]; split; congruence.
Qed.

Lemma leb_cmp (x y : float) :
  PrimFloat.leb x y = true <-> cmp x y = Some Lt \/ cmp x y = Some Eq.
Proof.
  rewrite leb_spec. unfold SFleb, cmp.
  destruct (SFcompare (Prim2SF x) (Prim2SF y)) as [[| |]|]; split;
    intros H; try reflexivity; try discriminate; auto;
    destruct H; discriminate.
Qed.

Lemma cmp_antisym (x y : float) (c : comparison) :
  cmp x y = Some c -> cmp y x = Some (CompOpp c).
Proof.
  intros H. destruct (cmp_some_not_nan _ _ _ H) as [Hx Hy].
  rewrite (cmp_key _ _ Hx Hy) in H. rewrite (cmp_key _ _ Hy Hx).
  rewrite lex3_antisym. congruence.
Qed.

(** ** The unread working set (internal/database) *)

(** [a] may stand before [b]: its score is higher, or the scores are equal
    and it was published no earlier. *)
Lemma precedes_cmp (a b : Article.t) :
  precedes a b = true <->
  cmp (score a) (score b) = Some Gt
  \/ (cmp (score a) (score b) = Some Eq
      /\ Article.PublishedAt b <= Article.PublishedAt a).
Proof.
  unfold precedes. rewrite orb_true_iff, andb_true_iff, ltb_cmp, eqb_cmp, Z.leb_le.
  split; (intros [H | H]; [left | right; exact H]).
  - apply cmp_antisym in H. exact H.
  - apply cmp_antisym in H. exact H.
Qed.

Lemma precedes_total (a b : Article.t) :
  is_nan (score a) = false -> is_nan (score b) = false ->
  precedes a b = false -> precedes b a = true.
Proof.
  intros Ha Hb Hf. apply precedes_cmp.
  assert (Hn : ~ (cmp (score a) (score b) = Some Gt
                  \/ (cmp (score a) (score b) = Some Eq
                      /\ Article.PublishedAt b <= Article.PublishedAt a))).
  { intros H. apply precedes_cmp in H. congruence. }
  pose proof (cmp_key _ _ Ha Hb) as Hab.
  destruct (lex3 (key (Prim2SF (score a))) (key (Prim2SF (score b)))) eqn:Hc.
  - right. split; [now apply cmp_antisym in Hab|].
    destruct (Z_le_gt_dec (Article.PublishedAt b) (Article.PublishedAt a)); [|lia].
    exfalso. apply Hn. right. now split.
  - left. now apply cmp_antisym in Hab.
  - exfalso. apply Hn. now left.
Qed.

Lemma precedes_trans (a b c : Article.t) :
  precedes a b = true -> precedes b c = true -> precedes a c = true.
Proof.
  rewrite !precedes_cmp. intros Hab Hbc.
  assert (Na : is_nan (score a) = false /\ is_nan (score b) = false)
    by (destruct Hab as [H | [H _]]; exact (cmp_some_not_nan _ _ _ H)).
  assert (Nc : is_nan (score b) = false /\ is_nan (score c) = false)
    by (destruct Hbc as [H | [H _]]; exact (cmp_some_not_nan _ _ _ H)).
  destruct Na as [Na Nb], Nc as [_ Nc].
  rewrite (cmp_key _ _ Na Nb) in Hab. rewrite (cmp_key _ _ Nb Nc) in Hbc.
  rewrite (cmp_key _ _ Na Nc).
  destruct Hab as [Hab | [Hab Pab]], Hbc as [Hbc | [Hbc Pbc]];
    apply (f_equal (fun o => match o with Some c => c | None => Eq end)) in Hab, Hbc;
    simpl in Hab, Hbc.
  - left. f_equal. exact (lex3_Gt_trans _ _ _ Hab Hbc).
  - left. apply lex3_Eq in Hbc. rewrite <- Hbc. now f_equal.
  - left. apply lex3_Eq in Hab. rewrite Hab. now f_equal.
  - right. apply lex3_Eq in Hab. rewrite Hab. split; [now f_equal | lia].
Qed.

Lemma insert_row_perm (a : Article.t) (rows : list Article.t) :
  Permutation (insert_row a rows) (a :: rows).
Proof.
  induction rows as [|b rows IH]; simpl; [reflexivity|].
  destruct (precedes a b); [reflexivity|].
  rewrite IH. apply perm_swap.
Qed.

Lemma order_by_perm (rows : list Article.t) : Permutation (order_by rows) rows.
Proof.
  induction rows as [|a rows IH]; simpl; [reflexivity|].
  rewrite insert_row_perm. now constructor.
Qed.

Lemma insert_row_ranked (a : Article.t) (rows : list Article.t) :
  is_nan (score a) = false -> no_nan_score rows ->
  ranked rows -> ranked (insert_row a rows).
Proof.
  intros Ha Hn Hs. induction Hs as [|b rows Hs IH Hb]; simpl.
  - constructor; constructor.
  - inversion Hn as [|? ? Nb Nrows]; subst.
    destruct (precedes a b) eqn:Hab.
    + constructor; [now constructor|].
      constructor; [exact Hab|].
      rewrite Forall_forall in Hb |- *. intros c Hc.
      apply (precedes_trans a b c Hab). now apply Hb.
    + constructor; [now apply IH|].
      rewrite Forall_forall in Hb |- *. intros c Hc.
      apply (Permutation_in _ (insert_row_perm a rows)) in Hc.
      destruct Hc as [<- | Hc]; [|now apply Hb].
      now apply precedes_total.
Qed.

Lemma order_by_ranked (rows : list Article.t) :
  no_nan_score rows -> ranked (order_by rows).
Proof.
  induction rows as [|a rows IH]; intros Hn; simpl; [constructor|].
  inversion Hn as [|? ? Na Nrows]; subst.
  apply insert_row_ranked; [exact Na | | now apply IH].
  unfold no_nan_score in *. rewrite Forall_forall in Nrows |- *.
  intros c Hc. apply Nrows. apply (Permutation_in _ (order_by_perm rows) Hc).
Qed.

Lemma ranked_positions (rows : list Article.t) :
  ranked rows ->
  forall (i j : nat) (a b : Article.t),
    (i < j)%nat -> nth_error rows i = Some a -> nth_error rows j = Some b ->
    precedes a b = true.
Proof.
  induction 1 as [|c rows Hs IH Hc]; intros i j a b Hij Hi Hj.
  - destruct i; discriminate.
  - destruct j as [|j]; [lia|]. simpl in Hj.
    destruct i as [|i]; simpl in Hi.
    + inversion Hi; subst c. rewrite Forall_forall in Hc.
      apply Hc. eapply nth_error_In; eassumption.
    + apply (IH i j); [lia | assumption | assumption].
Qed.

Lemma is_read_false (db : DB) (id : Z) :
  is_read db id = false <->
  forall r, In r (read_articles db) -> ReadArticle.ArticleID r <> id.
Proof.
  unfold is_read. split.
  - intros H r Hr Heq.
    assert (existsb (fun r => ReadArticle.ArticleID r =? id) (read_articles db) = true).
    { apply existsb_exists. exists r. split; [exact Hr | now apply Z.eqb_eq]. }
    congruence.
  - intros H.
    destruct (existsb (fun r => ReadArticle.ArticleID r =? id) (read_articles db)) eqn:E;
      [|reflexivity].
    apply existsb_exists in E. destruct E as [r [Hr Heq]].
    apply Z.eqb_eq in Heq. now apply H in Hr.
Qed.

(** C1 fails on the code.  GetUnreadArticles is documented to return the
    unread articles newer than [maxAge], and it compares texts: the
    cutoff [time.Now().Add(-maxAge)] is written in the local zone and
    the published_at of a row in UTC, so the window is off by the local
    offset.  At the instant 100 h, with a window of 24 h (the cutoff is
    the instant 76 h in every zone), over an unread article published at
    80 h and one published at 72 h: in UTC the query returns the first
    article alone, as documented; in Tokyo (UTC+9) it returns nothing; in
    New York (UTC-5) it returns both. *)
Theorem GetUnreadArticles_window_depends_on_the_zone :
  (forall zone : Z,
      GoTime.instant (GoTime.Add (at_100h zone) (- (24 * Hour))) = 76 * Hour)
  /\ map Article.PublishedAt (articles store_utc_dates) = [80 * Hour; 72 * Hour]
  /\ (is_read store_utc_dates 1 = false /\ is_read store_utc_dates 2 = false)
  /\ map Article.ID
         (GetUnreadArticles store_utc_dates (GoTime.stored (at_100h UTC)) (24 * Hour))
     = [1]
  /\ GetUnreadArticles store_utc_dates (GoTime.stored (at_100h Tokyo)) (24 * Hour)
     = []
  /\ map Article.ID
         (GetUnreadArticles store_utc_dates (GoTime.stored (at_100h New_York))
                            (24 * Hour))
     = [1; 2].
Proof.
  split; [intros zone; unfold at_100h, GoTime.Add, Hour; simpl; lia|].
  repeat split; vm_compute; reflexivity.
Qed.

(** ** The query text (internal/ai, internal/feed) *)

Section QueryText.
Variable provider : Log -> string -> option (list float).
Variable json_Unmarshal : list Byte.byte -> option (list float).
Variable json_Marshal : list float -> list Byte.byte.

Local Abbreviation ScoreArticle :=
  (ai.ScoreArticle provider json_Unmarshal json_Marshal).





End QueryText.

(** ** Weighted aggregation (internal/ai) *)

Section Aggregation.
Variable provider : Log -> string -> option (list float).
Variable json_Unmarshal : list Byte.byte -> option (list float).
Variable json_Marshal : list float -> list Byte.byte.

Local Abbreviation score_interests :=
  (ai.score_interests provider json_Unmarshal json_Marshal).
Local Abbreviation ScoreArticle :=
  (ai.ScoreArticle provider json_Unmarshal json_Marshal).
Local Abbreviation corrupt := (corrupt json_Unmarshal).
Local Abbreviation decodable := (decodable json_Unmarshal).
Local Abbreviation usable := (usable provider json_Unmarshal).

Lemma score_interests_sums (articleEmb : list float) (interests : list UserInterest.t) :
  Forall decodable interests ->
  forall (s w : float) (log : Log),
    fst (score_interests articleEmb interests s w log)
    = inl (sum_scores articleEmb (usable interests log) s,
           sum_weights (usable interests log) w).
Proof.
  induction 1 as [|i rest Hi Hrest IH]; intros s w log; simpl; [reflexivity|].
  destruct (UserInterest.Embedding i) as [|b bs] eqn:He.
  - unfold GetEmbedding.
    destruct (provider log (UserInterest.Description i)) as [e|]; simpl; apply IH.
  - destruct Hi as [Hi | [e Hi]]; [congruence|].
    rewrite He in Hi. rewrite Hi. simpl. apply IH.
Qed.

(** C2 (amended).  When the article embedding is obtained and every cached
    interest embedding decodes, ScoreArticle returns, without error, the sum
    of similarity times weight over the sum of weights, both taken over
    exactly the interests that yielded a usable embedding (one whose
    generation fails is in neither sum), and 0 when that total weight is 0;
    for two usable interests with similarity 1 and weight 2, similarity 0
    and weight 1, the value is 2/3. *)
Theorem ScoreArticle_weighted_average :
  (forall (article : Article.t) (interests : list UserInterest.t) (log : Log)
          (articleEmb : list float),
      provider log (articleText article) = Some articleEmb ->
      Forall decodable interests ->
      fst (ScoreArticle article interests log)
      = (weighted_average articleEmb
           (usable interests (log ++ [articleText article])), None))
  /\ (forall (articleEmb : list float) (l : list (list float * float)),
         PrimFloat.eqb (sum_weights l 0%float) 0%float = true ->
         weighted_average articleEmb l = 0%float)
  /\ (forall (articleEmb e1 e2 : list float),
         CosineSimilarity articleEmb e1 = 1%float ->
         CosineSimilarity articleEmb e2 = 0%float ->
         weighted_average articleEmb [(e1, 2%float); (e2, 1%float)]
         = (2 / 3)%float).
Proof.
  split; [|split].
  - intros article interests log articleEmb Hp Hd.
    unfold ai.ScoreArticle, GetEmbedding. rewrite Hp.
    pose proof (score_interests_sums articleEmb interests Hd 0%float 0%float
                  (log ++ [articleText article])) as Hs.
    destruct (score_interests articleEmb interests 0%float 0%float
                (log ++ [articleText article])) as [[[s w]|e] log'];
      simpl in Hs; [|discriminate].
    inversion Hs; subst s w. unfold weighted_average.
    destruct (PrimFloat.eqb (sum_weights _ 0%float) 0%float); reflexivity.
  - intros articleEmb l Hw. unfold weighted_average. rewrite Hw. reflexivity.
  - intros articleEmb e1 e2 H1 H2.
    unfold weighted_average, sum_weights, sum_scores. simpl.
    rewrite H1, H2. vm_compute. reflexivity.
Qed.

End Aggregation.

(** ** Worked examples *)

(** C2 as stated fails when a cached embedding does not decode: the one
    interest yields no usable embedding, so the total usable weight is 0 and
    the claim promises 0 without error, but ScoreArticle returns an error. *)
Lemma ScoreArticle_corrupt_cache_is_an_error :
  fst (example_ScoreArticle article7 [corrupt_cached] [])
  = (0%float, Some ErrUnmarshalingInterest)
  /\ fst (example_ScoreArticle article7 [corrupt_cached] [])
     <> (weighted_average [1%float; 0%float]
           (usable example_provider example_Unmarshal [corrupt_cached]
                   ["Title. summary"%string]),
         None).
Proof. split; [vm_compute; reflexivity | vm_compute; discriminate]. Qed.

Lemma ScoreArticle_weighted_average_witness :
  fst (example_ScoreArticle article7
         [golang_uncached; cooking_cached; offline_uncached] [])
  = (weighted_average [1%float; 0%float]
       (usable example_provider example_Unmarshal
               [golang_uncached; cooking_cached; offline_uncached]
               ([] ++ [articleText article7])),
     None)
  /\ weighted_average [1%float; 0%float]
       (usable example_provider example_Unmarshal
               [golang_uncached; cooking_cached; offline_uncached]
               ([] ++ [articleText article7]))
     = (2 / 3)%float.
Proof.
  split; [|vm_compute; reflexivity].
  apply (proj1 (ScoreArticle_weighted_average
                  example_provider example_Unmarshal example_Marshal)
               article7 [golang_uncached; cooking_cached; offline_uncached] []
               [1%float; 0%float] eq_refl).
  constructor; [left; reflexivity|].
  constructor; [right; eexists; vm_compute; reflexivity|].
  constructor; [left; reflexivity | constructor].
Defined.


Lemma ScoreArticle_corrupt_cache_aborts_witness :
  corrupt example_Unmarshal corrupt_cached
  /\ example_ScoreArticle article7 [golang_uncached; corrupt_cached; offline_uncached] []
     = example_ScoreArticle article7 ([golang_uncached] ++ [corrupt_cached]) []
  /\ example_ScoreArticle article7 [golang_uncached; corrupt_cached; offline_uncached] []
     = ((0%float, Some ErrUnmarshalingInterest), ["Title. summary"%string; "golang"%string]).
Proof.
  assert (H : corrupt example_Unmarshal corrupt_cached)
    by (split; [discriminate | vm_compute; reflexivity]).
  split; [exact H | split; [|vm_compute; reflexivity]].
  exact (proj2 (proj1 (ScoreArticle_corrupt_cache_aborts
                         example_provider example_Unmarshal example_Marshal)
                      article7 [golang_uncached] [offline_uncached]
                      corrupt_cached [] H)).
Defined.

(** ** Batch scoring (internal/ai) *)

(** C4 fails on the code.  A first pass of ScoreAllUnscored gives the only
    article the score -1 (its embedding is opposite to the interest's); a
    second pass, run at once, asks the provider for that article again and
    writes its score again: an article whose score is below 0 is scored
    anew on every pass, although its score is not 0.  An article whose
    score is above 0 is left alone. *)
Theorem ScoreAllUnscored_rescores_negative_scores :
  let pass1 := example_ScoreAllUnscored store_contrarian (100 * Hour) 1 [] in
  let pass2 := example_ScoreAllUnscored (fst pass1) (100 * Hour) 1 (snd pass1) in
  map score (articles (fst pass1)) = [(-1)%float]
  /\ snd pass1 = ["Title. summary"%string]
  /\ snd pass2 = ["Title. summary"%string; "Title. summary"%string]
  /\ snd (example_ScoreAllUnscored
            (mkDB [feed1] [fresh 1 "Title" 0.5%float] [contrarian_cached] [] 1)
            (100 * Hour) 1 [])
     = [].
Proof. vm_compute. repeat split; reflexivity. Qed.

Section Caching.
Variable provider : Log -> string -> option (list float).
Variable json_Unmarshal : list Byte.byte -> option (list float).
Variable json_Marshal : list float -> list Byte.byte.

Lemma UpdateArticleRelevance_interests (db : DB) (id : Z) (s : float) :
  user_interests (UpdateArticleRelevance db id s) = user_interests db.
Proof. reflexivity. Qed.

Lemma score_articles_interests (interests : list UserInterest.t)
    (rows : list Article.t) :
  forall (db : DB) (log : Log),
    user_interests
      (fst (score_articles provider json_Unmarshal json_Marshal interests rows db log))
    = user_interests db.
Proof.
  induction rows as [|a rows IH]; intros db log; simpl; [reflexivity|].
  destruct (PrimFloat.ltb 0%float (Article.RelevanceScore a)); [apply IH|].
  destruct (ScoreArticle provider json_Unmarshal json_Marshal a interests log)
    as [[s [e|]] log'].
  - apply IH.
  - rewrite IH. apply UpdateArticleRelevance_interests.
Qed.

(** The interests table is the same after ScoreAllUnscored as before: no
    embedding is ever written back. *)
Lemma ScoreAllUnscored_interests (db : DB) (now : Time) (maxAgeDays : Z) (log : Log) :
  user_interests
    (fst (ScoreAllUnscored provider json_Unmarshal json_Marshal db now maxAgeDays log))
  = user_interests db.
Proof.
  unfold ScoreAllUnscored, GetInterests.
  destruct (user_interests db) as [|i rest] eqn:Hi; [exact Hi|].
  rewrite score_articles_interests. exact Hi.
Qed.

End Caching.

(** C5 fails on the code.  With one interest that has no cached embedding
    and two unscored articles, one pass of ScoreAllUnscored asks the
    provider for the interest's embedding twice, once per article, and the
    interest is stored afterwards as it was, without an embedding; scoring
    a further article asks the provider for it once more. *)
Theorem ScoreAllUnscored_never_caches :
  let pass1 := example_ScoreAllUnscored store_uncached (100 * Hour) 1 [] in
  snd pass1
  = ["First. summary"%string; "golang"%string;
     "Second. summary"%string; "golang"%string]
  /\ user_interests (fst pass1) = [golang_uncached]
  /\ UserInterest.Embedding golang_uncached = []
  /\ snd (example_ScoreArticle (fresh 3 "Third" 0%float)
            (user_interests (fst pass1)) (snd pass1))
     = snd pass1 ++ ["Third. summary"%string; "golang"%string].
Proof. vm_compute. repeat split; reflexivity. Qed.

(** ** Cosine similarity (internal/ai) *)

Lemma CosineSimilarity_degenerate {F : Type} {arith : Arith F} (a b : list F) :
  f_eqb (f_zero : F) f_zero = true ->
  List.length a <> List.length b \/ a = [] \/ b = [] ->
  CosineSimilarity a b = f_zero.
Proof.
  intros Hz H. unfold CosineSimilarity.
  destruct (List.length a =? List.length b)%nat eqn:Hl; simpl; [|reflexivity].
  apply Nat.eqb_eq in Hl.
  assert (Ha : a = []).
  { destruct H as [H | [H | H]]; [congruence | exact H |].
    subst b. destruct a; [reflexivity | discriminate]. }
  subst a. simpl. now rewrite Hz.
Qed.

(** The parts of the formula in binary64: the inner product and the sum
    of squares, each added up from the left, starting at [from]. *)
Lemma sums_float (a : list float) :
  forall (b : list float) (d na nb : float),
    List.length a = List.length b ->
    sums a b d na nb
    = (fold_left (fun acc xy => (acc + fst xy * snd xy)%float) (combine a b) d,
       fold_left (fun acc x => (acc + x * x)%float) a na,
       fold_left (fun acc y => (acc + y * y)%float) b nb).
Proof.
  induction a as [|x a IH]; intros [|y b] d na nb Hl; simpl in *;
    try discriminate; [reflexivity|].
  apply IH. lia.
Qed.

(** C7 as stated fails in binary64.  The similarity of (1, 1, 1) with
    itself is computed as 3 / (sqrt 3 * sqrt 3), a float above 1; squares
    that overflow give a NaN; and where the squares underflow, two
    parallel vectors get the similarity 2, or 0 although neither is the
    zero vector. *)
Lemma CosineSimilarity_float_leaves_range :
  PrimFloat.leb (CosineSimilarity [1; 1; 1] [1; 1; 1])%float 1%float = false
  /\ PrimFloat.ltb 1%float (CosineSimilarity [1; 1; 1] [1; 1; 1])%float = true
  /\ is_nan (CosineSimilarity [0x1p700%float] [0x1p700%float]) = true
  /\ CosineSimilarity [0x1p-537%float] [0x1.8p-537%float] = 2%float
  /\ CosineSimilarity [0x1p-540%float] [0x1p-540%float] = 0%float.
Proof. vm_compute. repeat split; reflexivity. Qed.

(** C7 (amended).  In binary64, CosineSimilarity returns 0, and no error,
    whenever the two vectors differ in length or either is empty.  For
    two vectors of one length it returns 0 when the sum of squares of
    either, as computed, is 0, and otherwise the quotient of the computed
    inner product by the product of the square roots of the two computed
    sums of squares, every sum added up from the left and every operation
    rounded.  (No range is stated for that quotient: it need not lie in
    [-1, 1].) *)
Theorem CosineSimilarity_fail_soft_and_formula :
  (forall a b : list float,
      List.length a <> List.length b \/ a = [] \/ b = [] ->
      CosineSimilarity a b = 0%float)
  /\ (forall a b : list float,
         List.length a = List.length b ->
         CosineSimilarity a b
         = (if PrimFloat.eqb (sum_squares a) 0 || PrimFloat.eqb (sum_squares b) 0
            then 0
            else inner_product a b
                 / (PrimFloat.sqrt (sum_squares a) * PrimFloat.sqrt (sum_squares b)))%float).
Proof.
  split.
  - intros a b H. now apply (CosineSimilarity_degenerate (arith := float64)).
  - intros a b Hl. unfold CosineSimilarity.
    rewrite Hl, Nat.eqb_refl. simpl negb. cbv iota.
    change (@f_zero float float64) with 0%float.
    rewrite (sums_float a b 0%float 0%float 0%float Hl).
    reflexivity.
Qed.

Lemma CosineSimilarity_fail_soft_and_formula_witness :
  CosineSimilarity [1; 2; 3]%float [1; 2; 3; 4; 5]%float = 0%float
  /\ CosineSimilarity [3; 4]%float [4; 3]%float = (24 / (PrimFloat.sqrt 25 * PrimFloat.sqrt 25))%float.
Proof.
  split.
  - apply (proj1 CosineSimilarity_fail_soft_and_formula). left. simpl. lia.
  - exact (proj2 CosineSimilarity_fail_soft_and_formula [3; 4]%float [4; 3]%float
                 eq_refl).
Defined.

(** * Further properties *)

(** ** Rows and keys *)

Lemma has_article_In (db : DB) (id : Z) :
  has_article db id = true <-> exists a, In a (articles db) /\ Article.ID a = id.
Proof.
  unfold has_article. rewrite existsb_exists.
  split; intros [a [Ha He]]; exists a; split; trivial; now apply Z.eqb_eq.
Qed.

Lemma has_url_In (db : DB) (url : string) :
  has_url db url = true <-> In url (map Article.URL (articles db)).
Proof.
  unfold has_url. rewrite existsb_exists, in_map_iff.
  split; intros [a H]; exists a.
  - destruct H as [Ha He]. apply String.eqb_eq in He. now split.
  - destruct H as [He Ha]. split; [exact Ha | now apply String.eqb_eq].
Qed.

Lemma NoDup_map_filter_keep {K V : Type} (key : V -> K) (keep : V -> bool) :
  forall rows : list V,
    NoDup (map key rows) -> NoDup (map key (filter keep rows)).
Proof.
  intros rows. induction rows as [|row rows IH]; simpl; intros H; [constructor|].
  inversion H as [|? ? Hn Hl]; subst.
  destruct (keep row); simpl; [|now apply IH].
  constructor; [|now apply IH].
  intros Hin. apply Hn. apply in_map_iff in Hin. destruct Hin as [y [Hy Hin]].
  apply filter_In in Hin. apply in_map_iff. exists y. now split.
Qed.

(** ** Purging (internal/database, internal/tui) *)

Lemma filter_twice {A : Type} (p q : A -> bool) (l : list A) :
  filter p (filter q l) = filter (fun x => q x && p x) l.
Proof.
  induction l as [|x l IH]; simpl; [reflexivity|].
  destruct (q x); simpl; [destruct (p x); now rewrite IH | exact IH].
Qed.

Lemma filter_none {A : Type} (p : A -> bool) (l : list A) :
  (forall x, In x l -> p x = false) -> filter p l = [].
Proof.
  induction l as [|x l IH]; simpl; intros H; [reflexivity|].
  rewrite (H x (or_introl eq_refl)). apply IH. intros y Hy. apply H. now right.
Qed.

Lemma is_read_delete_articles (fk : bool) (doomed : Article.t -> bool)
    (db : DB) (id : Z) :
  is_read (delete_articles fk doomed db) id = true -> is_read db id = true.
Proof.
  destruct fk; [|exact (fun H => H)].
  unfold is_read. simpl. rewrite !existsb_exists.
  intros [r [Hr He]]. apply filter_In in Hr. exists r. now split.
Qed.

Lemma same_id_same_row (rows : list Article.t) (a b : Article.t) :
  NoDup (map Article.ID rows) -> In a rows -> In b rows ->
  Article.ID a = Article.ID b -> a = b.
Proof.
  induction rows as [|c l IH]; simpl; [tauto|].
  intros Hn. inversion Hn as [|? ? Hc Hl]; subst.
  intros [-> | Ha] [-> | Hb] He; trivial.
  - exfalso. apply Hc. apply in_map_iff. exists b. split; [lia | exact Hb].
  - exfalso. apply Hc. apply in_map_iff. exists a. split; [lia | exact Ha].
  - now apply IH.
Qed.

(** A marker survives a DELETE when its article does, ids being unique. *)
Lemma is_read_kept (fk : bool) (doomed : Article.t -> bool) (db : DB)
    (a : Article.t) :
  NoDup (map Article.ID (articles db)) ->
  In a (articles db) -> doomed a = false ->
  is_read (delete_articles fk doomed db) (Article.ID a) = is_read db (Article.ID a).
Proof.
  intros Hid Ha Hd. destruct fk; [|reflexivity].
  destruct (is_read db (Article.ID a)) eqn:Hr.
  - unfold is_read in *. simpl. apply existsb_exists in Hr.
    destruct Hr as [r [Hr He]]. apply existsb_exists. exists r. split; [|exact He].
    apply filter_In. split; [exact Hr|]. apply negb_true_iff.
    destruct (existsb _ (articles db)) eqn:Hx; [|reflexivity].
    apply existsb_exists in Hx. destruct Hx as [b [Hb Hbd]].
    apply andb_true_iff in Hbd. destruct Hbd as [Hbd Hbe].
    apply Z.eqb_eq in He, Hbe.
    assert (b = a); [|congruence].
    apply (same_id_same_row (articles db)); trivial. lia.
  - destruct (is_read (delete_articles true doomed db) (Article.ID a)) eqn:Hr';
      [|reflexivity].
    apply is_read_delete_articles in Hr'. congruence.
Qed.

Lemma GetUnreadArticles_after_DeleteReadArticles (fk : bool) (db : DB)
    (now : Time) (maxAge : Duration) :
  GetUnreadArticles (DeleteReadArticles fk db) now maxAge
  = GetUnreadArticles db now maxAge.
Proof.
  unfold GetUnreadArticles, DeleteReadArticles.
  change (articles (delete_articles fk (fun a => is_read db (Article.ID a)) db))
    with (filter (fun a => negb (is_read db (Article.ID a))) (articles db)).
  f_equal.
  rewrite filter_twice. apply filter_ext_in. intros a Ha. unfold unread_since.
  destruct (is_read db (Article.ID a)) eqn:Hr; simpl; [reflexivity|].
  assert (Hr' : is_read (delete_articles fk (fun a => is_read db (Article.ID a)) db)
                        (Article.ID a) = false).
  { destruct (is_read (delete_articles fk _ db) (Article.ID a)) eqn:E; [|reflexivity].
    apply is_read_delete_articles in E. congruence. }
  now rewrite Hr'.
Qed.

Lemma GetUnreadArticles_after_DeleteOldArticles (fk : bool) (db : DB)
    (nowDelete nowLoad : Time) (maxAge : Duration) :
  NoDup (map Article.ID (articles db)) -> nowDelete <= nowLoad ->
  GetUnreadArticles (DeleteOldArticles fk db nowDelete maxAge) nowLoad maxAge
  = GetUnreadArticles db nowLoad maxAge.
Proof.
  intros Hid Hle. unfold GetUnreadArticles, DeleteOldArticles.
  change (articles (delete_articles fk
                      (fun a => Article.PublishedAt a <? cutoff_at nowDelete maxAge) db))
    with (filter (fun a => negb (Article.PublishedAt a <? cutoff_at nowDelete maxAge))
                 (articles db)).
  f_equal.
  rewrite filter_twice. apply filter_ext_in. intros a Ha. unfold unread_since.
  destruct (Article.PublishedAt a <? cutoff_at nowDelete maxAge) eqn:Hold; simpl.
  - apply Z.ltb_lt in Hold.
    assert (H : (cutoff_at nowLoad maxAge <=? Article.PublishedAt a) = false)
      by (apply Z.leb_gt; unfold cutoff_at in *; lia).
    rewrite H. now rewrite andb_false_r.
  - now rewrite (is_read_kept fk _ db a Hid Ha Hold).
Qed.

Lemma In_GetUnreadArticles (db : DB) (now : Time) (maxAge : Duration) (a : Article.t) :
  In a (GetUnreadArticles db now maxAge) <->
  In a (articles db) /\ is_read db (Article.ID a) = false
  /\ cutoff_at now maxAge <= Article.PublishedAt a.
Proof.
  unfold GetUnreadArticles.
  pose proof (order_by_perm (filter (unread_since db (cutoff_at now maxAge)) (articles db)))
    as Hp.
  split.
  - intros H. apply (Permutation_in _ Hp) in H. apply filter_In in H.
    destruct H as [Ha Hu]. unfold unread_since in Hu.
    apply andb_true_iff in Hu. destruct Hu as [Hr Hc].
    apply negb_true_iff in Hr. apply Z.leb_le in Hc. tauto.
  - intros [Ha [Hr Hc]]. apply (Permutation_in _ (Permutation_sym Hp)).
    apply filter_In. split; [exact Ha|]. unfold unread_since.
    rewrite Hr. simpl. now apply Z.leb_le.
Qed.

(** X19.  GetUnreadArticles on a store whose scores are all numbers (a
    row without one cannot be read back).  Every row it returns is a row
    of the store that has no read marker, and each row is returned at
    most once when ids are unique.  Of any two returned rows, the earlier
    one has a score at least the later one's, and when the two scores are
    equal the earlier one's published_at is no earlier than the later
    one's.  On the window, with timestamps as the store compares them: a
    returned row reads at or after the cutoff, and every unmarked row
    that reads after the cutoff is returned. *)
Theorem GetUnreadArticles_ranks_unread_rows (db : DB) (now : Time)
    (maxAge : Duration) :
  no_nan_score (articles db) ->
  (forall a : Article.t,
      In a (GetUnreadArticles db now maxAge) ->
      In a (articles db)
      /\ (forall r, In r (read_articles db) -> ReadArticle.ArticleID r <> Article.ID a)
      /\ cutoff_at now maxAge <= Article.PublishedAt a)
  /\ (forall a : Article.t,
         In a (articles db) ->
         (forall r, In r (read_articles db) -> ReadArticle.ArticleID r <> Article.ID a) ->
         cutoff_at now maxAge < Article.PublishedAt a ->
         In a (GetUnreadArticles db now maxAge))
  /\ (NoDup (map Article.ID (articles db)) ->
      NoDup (map Article.ID (GetUnreadArticles db now maxAge)))
  /\ (forall (i j : nat) (a b : Article.t),
         (i < j)%nat ->
         nth_error (GetUnreadArticles db now maxAge) i = Some a ->
         nth_error (GetUnreadArticles db now maxAge) j = Some b ->
         PrimFloat.leb (score b) (score a) = true
         /\ (PrimFloat.eqb (score a) (score b) = true ->
             Article.PublishedAt b <= Article.PublishedAt a)).
Proof.
  intros Hn.
  repeat match goal with |- _ /\ _ => split end.
  - intros a Ha. apply In_GetUnreadArticles in Ha. destruct Ha as [Ha [Hr Hc]].
    repeat split; trivial. now apply is_read_false.
  - intros a Ha Hr Hc. apply In_GetUnreadArticles.
    repeat split; [exact Ha | now apply is_read_false | lia].
  - intros Hid. unfold GetUnreadArticles.
    set (kept := filter (unread_since db (cutoff_at now maxAge)) (articles db)).
    apply (Permutation_NoDup
             (Permutation_map Article.ID (Permutation_sym (order_by_perm kept)))).
    now apply NoDup_map_filter_keep.
  - intros i j a b Hij Hi Hj. unfold GetUnreadArticles in Hi, Hj.
    set (kept := filter (unread_since db (cutoff_at now maxAge)) (articles db)) in *.
    assert (Hk : no_nan_score kept).
    { unfold no_nan_score in *. rewrite Forall_forall in Hn |- *.
      intros c Hc. apply filter_In in Hc. now apply Hn. }
    pose proof (ranked_positions _ (order_by_ranked kept Hk) i j a b Hij Hi Hj) as Hp.
    apply precedes_cmp in Hp. split.
    + apply leb_cmp.
      destruct Hp as [Hp | [Hp _]]; apply cmp_antisym in Hp; simpl in Hp; auto.
    + intros He. apply eqb_cmp in He.
      destruct Hp as [Hp | [_ Hp]]; [congruence | exact Hp].
Qed.

(** On the connection that carries the pragma, the INSERT is
    MarkArticleRead as written above. *)
Lemma MarkArticleRead_on_pragma (db : DB) (now : Time) (id : Z) :
  MarkArticleRead_on true db now id = MarkArticleRead db now id.
Proof. reflexivity. Qed.

Lemma is_read_MarkArticleRead_on (fk : bool) (db : DB) (now : Time) (id k : Z) :
  is_read (fst (MarkArticleRead_on fk db now id)) k
  = is_read db k || ((negb fk || has_article db id) && (k =? id)).
Proof.
  unfold MarkArticleRead_on.
  destruct (is_read db id) eqn:Hr; simpl.
  - destruct ((negb fk || has_article db id) && (k =? id)) eqn:E;
      [|now rewrite orb_false_r].
    apply andb_true_iff in E. destruct E as [_ E]. apply Z.eqb_eq in E. subst k.
    now rewrite Hr.
  - destruct fk, (has_article db id); simpl; try now rewrite orb_false_r.
    all: unfold is_read; simpl; rewrite existsb_app; simpl;
      now rewrite orb_false_r, (Z.eqb_sym id k).
Qed.

Lemma articles_MarkArticleRead_on (fk : bool) (db : DB) (now : Time) (id : Z) :
  articles (fst (MarkArticleRead_on fk db now id)) = articles db.
Proof.
  unfold MarkArticleRead_on.
  destruct (is_read db id || (fk && negb (has_article db id))); reflexivity.
Qed.

Lemma In_articles_delete (fk : bool) (doomed : Article.t -> bool) (db : DB)
    (a : Article.t) :
  In a (articles (delete_articles fk doomed db)) <->
  In a (articles db) /\ doomed a = false.
Proof.
  simpl. rewrite filter_In. rewrite negb_true_iff. tauto.
Qed.

Lemma In_articles_markReadAndDelete (fkMark fkDelete : bool) (db : DB)
    (now : Time) (id : Z) (a : Article.t) :
  In a (articles (tui.markReadAndDelete fkMark fkDelete db now id)) <->
  In a (articles db) /\ is_read db (Article.ID a) = false /\ Article.ID a <> id.
Proof.
  unfold tui.markReadAndDelete, DeleteReadArticles.
  rewrite In_articles_delete, articles_MarkArticleRead_on,
    is_read_MarkArticleRead_on.
  split.
  - intros [Ha Hr]. apply orb_false_iff in Hr. destruct Hr as [Hr Hk].
    repeat split; trivial. intros He.
    assert (Hh : has_article db id = true)
      by (apply has_article_In; exists a; now split).
    rewrite Hh, orb_true_r in Hk. simpl in Hk. apply Z.eqb_neq in Hk. contradiction.
  - intros [Ha [Hr Hne]]. split; [exact Ha|].
    rewrite Hr. simpl. apply andb_false_iff. right. now apply Z.eqb_neq.
Qed.

(** X2.  After [enter] in the detail view (MarkArticleRead, then
    DeleteReadArticles), whatever the two calls returned and whichever
    connections they ran on: the store has no article with that id; its
    articles are those of before that had no read marker, without that
    one; and, the scores of the store being numbers, the unread articles
    are those of before without that one. *)
Theorem markReadAndDelete_removes_the_article (fkMark fkDelete : bool) (db : DB)
    (now : Time) (id : Z) :
  has_article (tui.markReadAndDelete fkMark fkDelete db now id) id = false
  /\ (forall a : Article.t,
         In a (articles (tui.markReadAndDelete fkMark fkDelete db now id)) <->
         In a (articles db) /\ is_read db (Article.ID a) = false
         /\ Article.ID a <> id)
  /\ (no_nan_score (articles db) ->
      forall (now' : Time) (maxAge : Duration) (a : Article.t),
        In a (GetUnreadArticles (tui.markReadAndDelete fkMark fkDelete db now id)
                                now' maxAge) <->
        In a (GetUnreadArticles db now' maxAge) /\ Article.ID a <> id).
Proof.
  split; [|split].
  - destruct (has_article (tui.markReadAndDelete fkMark fkDelete db now id) id)
      eqn:H; [|reflexivity].
    exfalso. apply has_article_In in H. destruct H as [a [Ha He]].
    apply In_articles_markReadAndDelete in Ha. tauto.
  - apply In_articles_markReadAndDelete.
  - intros _ now' maxAge a. unfold tui.markReadAndDelete.
    rewrite GetUnreadArticles_after_DeleteReadArticles.
    rewrite !In_GetUnreadArticles, articles_MarkArticleRead_on,
      is_read_MarkArticleRead_on.
    split.
    + intros [Ha [Hr Hc]]. apply orb_false_iff in Hr. destruct Hr as [Hr Hk].
      repeat split; trivial. intros He.
      assert (Hh : has_article db id = true)
        by (apply has_article_In; exists a; now split).
      rewrite Hh, orb_true_r in Hk. simpl in Hk. apply Z.eqb_neq in Hk.
      contradiction.
    + intros [[Ha [Hr Hc]] Hne]. repeat split; trivial.
      rewrite Hr. simpl. apply andb_false_iff. right. now apply Z.eqb_neq.
Qed.

(** X3.  The deleteOldArticles command on a store whose article ids are
    unique and whose scores are numbers, its second clock reading no
    earlier than its first, whichever connections its two DELETEs ran on.  Timestamps are compared the way
    the store compares them, and the window is the configured number of
    days as a 64-bit duration.  The command loads exactly what
    loadArticles would load from the store as it was; every article it
    leaves in the store had no read marker and a published_at at or after
    the deletion cutoff; every article that had no read marker and a
    published_at after the deletion cutoff is left in the store; and
    every article it loads is in the store. *)
Theorem deleteOldArticles_keeps_the_working_set (fkOld fkRead : bool) (db : DB)
    (nowDelete nowLoad : Time) (days : Z) :
  NoDup (map Article.ID (articles db)) -> no_nan_score (articles db) ->
  nowDelete <= nowLoad ->
  snd (tui.deleteOldArticles fkOld fkRead db nowDelete nowLoad days)
  = tui.loadArticles db nowLoad days
  /\ (forall a : Article.t,
         In a (articles (fst (tui.deleteOldArticles fkOld fkRead db
                                                    nowDelete nowLoad days))) ->
         In a (articles db) /\ is_read db (Article.ID a) = false
         /\ cutoff_at nowDelete (tui.maxAgeOf days) <= Article.PublishedAt a)
  /\ (forall a : Article.t,
         In a (articles db) -> is_read db (Article.ID a) = false ->
         cutoff_at nowDelete (tui.maxAgeOf days) < Article.PublishedAt a ->
         In a (articles (fst (tui.deleteOldArticles fkOld fkRead db
                                                    nowDelete nowLoad days))))
  /\ (forall a : Article.t,
         In a (snd (tui.deleteOldArticles fkOld fkRead db nowDelete nowLoad days)) ->
         In a (articles (fst (tui.deleteOldArticles fkOld fkRead db
                                                    nowDelete nowLoad days)))).
Proof.
  intros Hid _ Hle. unfold tui.deleteOldArticles, tui.loadArticles.
  cbv zeta. cbn [fst snd].
  set (maxAge := tui.maxAgeOf days).
  assert (E1 : GetUnreadArticles
                 (DeleteReadArticles fkRead (DeleteOldArticles fkOld db nowDelete maxAge))
                 nowLoad maxAge
               = GetUnreadArticles db nowLoad maxAge).
  { rewrite GetUnreadArticles_after_DeleteReadArticles.
    now apply GetUnreadArticles_after_DeleteOldArticles. }
  assert (E3 : forall a,
             In a (articles (DeleteReadArticles fkRead
                               (DeleteOldArticles fkOld db nowDelete maxAge)))
             <-> In a (articles db) /\ is_read db (Article.ID a) = false
                 /\ cutoff_at nowDelete maxAge <= Article.PublishedAt a).
  { intros a. unfold DeleteReadArticles. rewrite In_articles_delete.
    unfold DeleteOldArticles. rewrite In_articles_delete. rewrite Z.ltb_ge.
    split.
    - intros [[Ha Hc] Hr]. rewrite (is_read_kept fkOld _ db a Hid Ha) in Hr; [tauto|].
      now apply Z.ltb_ge.
    - intros [Ha [Hr Hc]]. rewrite (is_read_kept fkOld _ db a Hid Ha); [tauto|].
      now apply Z.ltb_ge. }
  split; [exact E1 | split; [|split]].
  - intros a Ha. now apply E3.
  - intros a Ha Hr Hc. apply E3. repeat split; trivial. lia.
  - intros a Ha. rewrite E1 in Ha. apply In_GetUnreadArticles in Ha.
    apply E3. destruct Ha as [Ha [Hr Hc]]. repeat split; trivial.
    unfold cutoff_at in *. lia.
Qed.

(** ** Inserting and looking up articles (internal/database) *)

Lemma has_url_after_AddArticle (db db' : DB) (now : Time) (article : Article.t) :
  AddArticle db now article = (db', None) ->
  has_url db' (Article.URL article) = true.
Proof.
  intros H. rewrite has_url_In, (AddArticle_rows _ _ _ _ H), map_app.
  apply in_or_app. right. now left.
Qed.

Lemma find_app_none {A : Type} (p : A -> bool) (l1 l2 : list A) :
  find p l1 = None -> find p (l1 ++ l2) = find p l2.
Proof.
  induction l1 as [|x l1 IH]; simpl; [reflexivity|].
  destruct (p x); [discriminate | exact IH].
Qed.

Lemma find_app_some {A : Type} (p : A -> bool) (l1 l2 : list A) (x : A) :
  find p l1 = Some x -> find p (l1 ++ l2) = Some x.
Proof.
  induction l1 as [|y l1 IH]; simpl; [discriminate|].
  destruct (p y); [trivial | exact IH].
Qed.

(** X4.  Once AddArticle has stored an article, AddArticle of any article
    with the same url is rejected with the store unchanged; and on a store
    that meets the schema the stored row is the only one with that url. *)
Theorem AddArticle_rejects_a_stored_url :
  (forall (db db' : DB) (now now' : Time) (a a' : Article.t),
      AddArticle db now a = (db', None) ->
      Article.URL a' = Article.URL a ->
      AddArticle db' now' a' = (db', Some ErrInsertingArticle))
  /\ (forall (db db' : DB) (now : Time) (a : Article.t),
         schema_ok db ->
         AddArticle db now a = (db', None) ->
         filter (fun b => String.eqb (Article.URL b) (Article.URL a)) (articles db')
         = [Article.with_row (articles_seq db + 1) now a]).
Proof.
  split.
  - intros db db' now now' a a' H He. unfold AddArticle.
    rewrite He, (has_url_after_AddArticle _ _ _ _ H). reflexivity.
  - intros db db' now a Hok H. rewrite (AddArticle_rows _ _ _ _ H), filter_app.
    simpl. rewrite String.eqb_refl.
    rewrite filter_none; [reflexivity|].
    intros b Hb. apply String.eqb_neq. intros He.
    unfold AddArticle in H. destruct (has_url db (Article.URL a)) eqn:Hu;
      [discriminate|].
    assert (has_url db (Article.URL a) = true); [|congruence].
    apply has_url_In. apply in_map_iff. exists b. now split.
Qed.

(** X5.  On a store that meets the schema, after a successful AddArticle
    GetArticleByID of the new id (the counter, one more than before) returns
    the article as stored, and every other id looks up as before. *)
Theorem GetArticleByID_after_AddArticle (db db' : DB) (now : Time) (a : Article.t) :
  schema_ok db ->
  AddArticle db now a = (db', None) ->
  GetArticleByID db' (articles_seq db')
  = Some (Article.with_row (articles_seq db') now a)
  /\ articles_seq db' = articles_seq db + 1
  /\ (forall id, id <> articles_seq db' ->
                 GetArticleByID db' id = GetArticleByID db id).
Proof.
  intros Hok H. pose proof (AddArticle_rows _ _ _ _ H) as Hrows.
  assert (Hseq : articles_seq db' = articles_seq db + 1).
  { unfold AddArticle in H.
    destruct (has_url db (Article.URL a) || negb (has_feed db (Article.FeedID a)));
      inversion H; reflexivity. }
  unfold GetArticleByID. rewrite Hrows, Hseq. split; [|split; [reflexivity|]].
  - rewrite find_app_none; [simpl; now rewrite Z.eqb_refl|].
    destruct (find _ (articles db)) as [b|] eqn:Hf; [|reflexivity].
    apply find_some in Hf. destruct Hf as [Hb He]. apply Z.eqb_eq in He.
    pose proof (ids_issued db Hok) as Hi. rewrite Forall_forall in Hi.
    specialize (Hi b Hb). lia.
  - intros id Hne.
    destruct (find (fun b => Article.ID b =? id) (articles db)) as [b|] eqn:Hf.
    + now apply find_app_some.
    + rewrite find_app_none by exact Hf. simpl.
      destruct (articles_seq db + 1 =? id) eqn:E; [|reflexivity].
      apply Z.eqb_eq in E. lia.
Qed.

Lemma find_map_update (id k : Z) (s : float) (l : list Article.t) :
  find (fun a => Article.ID a =? k)
       (map (fun a => if Article.ID a =? id
                      then Article.with_RelevanceScore s a else a) l)
  = if k =? id
    then option_map (Article.with_RelevanceScore s)
                    (find (fun a => Article.ID a =? id) l)
    else find (fun a => Article.ID a =? k) l.
Proof.
  destruct (k =? id) eqn:Ek.
  - apply Z.eqb_eq in Ek. subst k.
    induction l as [|a l IH]; simpl; [reflexivity|].
    destruct (Article.ID a =? id) eqn:Ea; simpl; rewrite Ea; [reflexivity | exact IH].
  - induction l as [|a l IH]; simpl; [reflexivity|].
    destruct (Article.ID a =? id) eqn:Ea; simpl.
    + apply Z.eqb_eq in Ea. rewrite Ea, (Z.eqb_sym id k), Ek. exact IH.
    + destruct (Article.ID a =? k); [reflexivity | exact IH].
Qed.

(** What is read back compares equal to what was written: a zero may
    change its sign, nothing else changes. *)
Lemma REAL_eqb (s : float) :
  is_nan s = false -> PrimFloat.eqb (REAL s) s = true.
Proof.
  unfold is_nan, REAL. intros Hn. apply negb_false_iff in Hn.
  destruct (PrimFloat.eqb s 0%float) eqn:Hz; [|exact Hn].
  rewrite eqb_spec in Hz |- *.
  replace (Prim2SF 0%float) with (S754_zero false) in * by reflexivity.
  destruct (Prim2SF s) as [[|]| [|] | | [|] m e]; try reflexivity; discriminate.
Qed.

(** X6.  UpdateArticleRelevance of [id] with a score that is a number, on
    a store whose scores are numbers: GetArticleByID then gives the row
    of [id] with the score as the REAL column returns it, which compares
    equal to the one written (a negative zero comes back positive), and
    every other row as before; an [id] the store does not hold leaves the
    store unchanged (and is no error); ids, urls and publication times
    are never changed. *)
Theorem GetArticleByID_after_UpdateArticleRelevance (db : DB) (id : Z) (s : float) :
  is_nan s = false ->
  no_nan_score (articles db) ->
  (forall k : Z,
      GetArticleByID (UpdateArticleRelevance db id s) k
      = if k =? id
        then option_map (Article.with_RelevanceScore (REAL s)) (GetArticleByID db id)
        else GetArticleByID db k)
  /\ PrimFloat.eqb (REAL s) s = true
  /\ (PrimFloat.eqb s 0%float = false -> REAL s = s)
  /\ no_nan_score (articles (UpdateArticleRelevance db id s))
  /\ (has_article db id = false -> UpdateArticleRelevance db id s = db)
  /\ map (fun a => (Article.ID a, Article.URL a, Article.PublishedAt a))
         (articles (UpdateArticleRelevance db id s))
     = map (fun a => (Article.ID a, Article.URL a, Article.PublishedAt a))
           (articles db).
Proof.
  intros Hs Hdb. pose proof (REAL_eqb s Hs) as Hre.
  repeat match goal with |- _ /\ _ => split end.
  - intros k. unfold GetArticleByID, UpdateArticleRelevance. simpl.
    apply find_map_update.
  - exact Hre.
  - intros Hz. unfold REAL. now rewrite Hz.
  - unfold no_nan_score, UpdateArticleRelevance in *. simpl.
    rewrite Forall_forall in Hdb |- *. intros a Ha. apply in_map_iff in Ha.
    destruct Ha as [b [<- Hb]].
    destruct (Article.ID b =? id); [|now apply Hdb]. simpl.
    unfold is_nan, REAL.
    destruct (PrimFloat.eqb s 0%float); [reflexivity|exact Hs].
  - intros Hh. unfold UpdateArticleRelevance, with_articles.
    replace (map _ (articles db)) with (articles db); [now destruct db|].
    symmetry. rewrite <- (map_id (articles db)) at 2. apply map_ext_in.
    intros a Ha. destruct (Article.ID a =? id) eqn:E; [|reflexivity].
    apply Z.eqb_eq in E.
    assert (has_article db id = true); [|congruence].
    apply has_article_In. exists a. now split.
  - unfold UpdateArticleRelevance. simpl. rewrite map_map. apply map_ext.
    intros a. destruct (Article.ID a =? id); reflexivity.
Qed.

(** ** Fetching feeds (internal/feed) *)

Lemma convertToArticle_fields (item : Item.t) (feedID : Z) (a : Article.t) :
  convertToArticle item feedID = Some a ->
  Article.FeedID a = feedID /\ Article.RelevanceScore a = 0%float
  /\ Article.URL a = Item.Link item /\ Article.Title a = Item.Title item.
Proof.
  unfold convertToArticle.
  destruct (match Item.PublishedParsed item with
            | Some t => Some t
            | None => Item.UpdatedParsed item
            end); [|discriminate].
  intros H; inversion H; subst; simpl. repeat split.
Qed.

Lemma AddArticle_frame (db db' : DB) (now : Time) (a : Article.t) (r : option error) :
  AddArticle db now a = (db', r) ->
  feeds db' = feeds db /\ user_interests db' = user_interests db
  /\ read_articles db' = read_articles db.
Proof.
  unfold AddArticle.
  destruct (has_url db (Article.URL a) || negb (has_feed db (Article.FeedID a)));
    intros H; inversion H; subst; simpl; repeat split.
Qed.

Lemma store_items_appends (items : list Item.t) (feedID : Z) (now : Time) :
  forall (db : DB) (n : Z),
  exists added,
    articles (fst (store_items items feedID now db n)) = articles db ++ added
    /\ snd (store_items items feedID now db n) = n + Z.of_nat (List.length added)
    /\ Forall (fresh_row feedID now) added
    /\ feeds (fst (store_items items feedID now db n)) = feeds db
    /\ user_interests (fst (store_items items feedID now db n)) = user_interests db
    /\ read_articles (fst (store_items items feedID now db n)) = read_articles db.
Proof.
  induction items as [|item rest IH]; intros db n; simpl.
  - exists []. rewrite app_nil_r. simpl. repeat split; [lia | constructor].
  - destruct (convertToArticle item feedID) as [a|] eqn:Hc; [|apply IH].
    destruct (AddArticle db now a) as [db' [e|]] eqn:Ha; [apply IH|].
    destruct (IH db' (n + 1)) as [added [Hr [Hn [Hf [F1 [F2 F3]]]]]].
    destruct (AddArticle_frame _ _ _ _ _ Ha) as [G1 [G2 G3]].
    exists (Article.with_row (articles_seq db + 1) now a :: added).
    rewrite Hr, Hn, (AddArticle_rows _ _ _ _ Ha), <- app_assoc. simpl.
    repeat split; try congruence; [lia|].
    constructor; [|exact Hf].
    destruct (convertToArticle_fields _ _ _ Hc) as [E1 [E2 _]].
    unfold fresh_row. simpl. tauto.
Qed.

(** X7.  FetchAndStore of a fetched feed appends rows to [articles] and
    changes nothing else: the rows there before stay in place, the count
    it returns is the number of rows appended, each new row belongs to the
    feed, is fetched now and is unscored, and no error is returned; a
    failed fetch leaves the store as it is and returns 0 with the error. *)
Theorem FetchAndStore_counts_the_rows_it_adds (f : Feed.t) (now : Time) (db : DB) :
  (forall items : list Item.t,
      exists added,
        articles (fst (FetchAndStore (Some items) f now db)) = articles db ++ added
        /\ snd (FetchAndStore (Some items) f now db)
           = (Z.of_nat (List.length added), None)
        /\ Forall (fresh_row (Feed.ID f) now) added
        /\ feeds (fst (FetchAndStore (Some items) f now db)) = feeds db
        /\ user_interests (fst (FetchAndStore (Some items) f now db))
           = user_interests db
        /\ read_articles (fst (FetchAndStore (Some items) f now db))
           = read_articles db)
  /\ FetchAndStore None f now db = (db, (0, Some ErrParsingFeed)).
Proof.
  split; [|reflexivity].
  intros items. unfold FetchAndStore.
  destruct (store_items_appends items (Feed.ID f) now db 0)
    as [added [Hr [Hn [Hf [F1 [F2 F3]]]]]].
  destruct (store_items items (Feed.ID f) now db 0) as [db' n].
  simpl in *. exists added. subst n. repeat split; assumption.
Qed.

Lemma rejected_AddArticle (db db' : DB) (now : Time) (a b : Article.t)
    (r : option error) :
  AddArticle db now a = (db', r) -> rejected db b = true -> rejected db' b = true.
Proof.
  intros H Hb. destruct r as [e|].
  - now rewrite (AddArticle_rejected _ _ _ _ _ H).
  - unfold rejected in *. destruct (AddArticle_frame _ _ _ _ _ H) as [F _].
    unfold has_feed in *. rewrite F.
    apply orb_true_iff in Hb. apply orb_true_iff. destruct Hb as [Hb | Hb]; [left | now right].
    apply has_url_In. apply has_url_In in Hb.
    rewrite (AddArticle_rows _ _ _ _ H), map_app. apply in_or_app. now left.
Qed.

Lemma rejected_store_items (items : list Item.t) (feedID : Z) (now : Time)
    (b : Article.t) :
  forall (db : DB) (n : Z),
    rejected db b = true ->
    rejected (fst (store_items items feedID now db n)) b = true.
Proof.
  induction items as [|item rest IH]; intros db n Hb; simpl; [exact Hb|].
  destruct (convertToArticle item feedID) as [a|]; [|now apply IH].
  destruct (AddArticle db now a) as [db' [e|]] eqn:Ha; apply IH; [exact Hb|].
  exact (rejected_AddArticle _ _ _ _ _ _ Ha Hb).
Qed.

Lemma store_items_leaves_rejected (items : list Item.t) (feedID : Z) (now : Time) :
  forall (db : DB) (n : Z) (item : Item.t) (b : Article.t),
    In item items -> convertToArticle item feedID = Some b ->
    rejected (fst (store_items items feedID now db n)) b = true.
Proof.
  induction items as [|it rest IH]; intros db n item b Hin Hc; [destruct Hin|].
  simpl. destruct Hin as [-> | Hin].
  - rewrite Hc. destruct (AddArticle db now b) as [db' [e|]] eqn:Ha;
      apply rejected_store_items.
    + unfold AddArticle in Ha. unfold rejected.
      destruct (has_url db (Article.URL b) || negb (has_feed db (Article.FeedID b)));
        [reflexivity | discriminate].
    + unfold rejected. now rewrite (has_url_after_AddArticle _ _ _ _ Ha).
  - destruct (convertToArticle it feedID) as [a|]; [|now apply (IH _ _ item)].
    destruct (AddArticle db now a) as [db' [e|]]; now apply (IH _ _ item).
Qed.

Lemma store_items_all_rejected (items : list Item.t) (feedID : Z) (now : Time)
    (db : DB) (n : Z) :
  (forall item b, In item items -> convertToArticle item feedID = Some b ->
                  rejected db b = true) ->
  store_items items feedID now db n = (db, n).
Proof.
  induction items as [|item rest IH]; intros H; simpl; [reflexivity|].
  destruct (convertToArticle item feedID) as [a|] eqn:Hc.
  - pose proof (H item a (or_introl eq_refl) Hc) as Hr.
    unfold AddArticle. unfold rejected in Hr. rewrite Hr.
    apply IH. intros it b Hin. apply H. now right.
  - apply IH. intros it b Hin. apply H. now right.
Qed.

(** X8.  FetchAndStore of the same items a second time, at any later
    time, adds nothing: it returns 0 and leaves the store as the first call
    left it. *)
Theorem FetchAndStore_twice_adds_nothing (items : list Item.t) (f : Feed.t)
    (now now' : Time) (db : DB) :
  FetchAndStore (Some items) f now' (fst (FetchAndStore (Some items) f now db))
  = (fst (FetchAndStore (Some items) f now db), (0, None)).
Proof.
  unfold FetchAndStore.
  pose proof (store_items_leaves_rejected items (Feed.ID f) now db 0) as Hr.
  destruct (store_items items (Feed.ID f) now db 0) as [db' n]. simpl in *.
  rewrite (store_items_all_rejected items (Feed.ID f) now' db' 0); [reflexivity|].
  exact Hr.
Qed.

Lemma insert_feed_perm (f : Feed.t) (rows : list Feed.t) :
  Permutation (insert_feed f rows) (f :: rows).
Proof.
  induction rows as [|g rows IH]; simpl; [reflexivity|].
  destruct (Feed.CreatedAt g <=? Feed.CreatedAt f); [reflexivity|].
  rewrite IH. apply perm_swap.
Qed.

Lemma sort_feeds_perm (rows : list Feed.t) :
  Permutation (fold_right insert_feed [] rows) rows.
Proof.
  induction rows as [|f rows IH]; simpl; [reflexivity|].
  rewrite insert_feed_perm. now constructor.
Qed.

Lemma insert_feed_sorted (f : Feed.t) (rows : list Feed.t) :
  newest_first rows -> newest_first (insert_feed f rows).
Proof.
  induction 1 as [|g rows Hs IH Hg]; simpl.
  - constructor; constructor.
  - destruct (Feed.CreatedAt g <=? Feed.CreatedAt f) eqn:E.
    + apply Z.leb_le in E. constructor; [now constructor|].
      constructor; [exact E|]. rewrite Forall_forall in Hg |- *.
      intros h Hh. specialize (Hg h Hh). lia.
    + apply Z.leb_gt in E. constructor; [exact IH|].
      rewrite Forall_forall in Hg |- *. intros h Hh.
      apply (Permutation_in _ (insert_feed_perm f rows)) in Hh.
      destruct Hh as [<- | Hh]; [lia | now apply Hg].
Qed.

Lemma sort_feeds_sorted (rows : list Feed.t) :
  newest_first (fold_right insert_feed [] rows).
Proof.
  induction rows as [|f rows IH]; simpl; [constructor | now apply insert_feed_sorted].
Qed.

(** X9.  GetFeeds returns the feeds and GetEnabledFeeds the enabled feeds,
    each once per row, most recently created first; the enabled feeds are
    the feeds of GetFeeds that are enabled. *)
Theorem GetEnabledFeeds_enabled_newest_first (db : DB) :
  Permutation (GetFeeds db) (feeds db)
  /\ newest_first (GetFeeds db)
  /\ Permutation (GetEnabledFeeds db) (filter Feed.Enabled (feeds db))
  /\ newest_first (GetEnabledFeeds db)
  /\ (forall f : Feed.t,
         In f (GetEnabledFeeds db) <-> In f (GetFeeds db) /\ Feed.Enabled f = true).
Proof.
  unfold GetFeeds, GetEnabledFeeds.
  repeat match goal with |- _ /\ _ => split end;
    try apply sort_feeds_perm; try apply sort_feeds_sorted.
  intros f. split.
  - intros H. apply (Permutation_in _ (sort_feeds_perm _)) in H.
    apply filter_In in H. destruct H as [H He]. split; [|exact He].
    now apply (Permutation_in _ (Permutation_sym (sort_feeds_perm _))).
  - intros [H He]. apply (Permutation_in _ (sort_feeds_perm _)) in H.
    apply (Permutation_in _ (Permutation_sym (sort_feeds_perm _))).
    apply filter_In. now split.
Qed.

Section FetchAllFacts.
Variable FetchFeed : string -> option (list Item.t).

Lemma fetch_feeds_skips_failures (fs : list Feed.t) (now : Time) :
  forall (db : DB) (n : Z),
    fetch_feeds FetchFeed fs now db n
    = fetch_feeds FetchFeed (filter (answers FetchFeed) fs) now db n.
Proof.
  induction fs as [|f rest IH]; intros db n; [reflexivity|].
  cbn -[FetchAndStore]. unfold answers at 1.
  destruct (FetchFeed (Feed.URL f)) as [items|] eqn:E; cbn -[FetchAndStore].
  - rewrite E. destruct (FetchAndStore (Some items) f now db) as [db' [c [e|]]];
      apply IH.
  - apply IH.
Qed.

Lemma fetch_feeds_ext (F' : string -> option (list Item.t)) (fs : list Feed.t)
    (now : Time) :
  (forall f, In f fs -> F' (Feed.URL f) = FetchFeed (Feed.URL f)) ->
  forall (db : DB) (n : Z),
    fetch_feeds F' fs now db n = fetch_feeds FetchFeed fs now db n.
Proof.
  induction fs as [|f rest IH]; intros H db n; [reflexivity|].
  cbn -[FetchAndStore]. rewrite (H f (or_introl eq_refl)).
  destruct (FetchAndStore (FetchFeed (Feed.URL f)) f now db) as [db' [c [e|]]];
    apply IH; intros g Hg; apply H; now right.
Qed.

Lemma fetch_feeds_appends (fs : list Feed.t) (now : Time) :
  forall (db : DB) (n : Z),
  exists added,
    articles (fst (fetch_feeds FetchFeed fs now db n)) = articles db ++ added
    /\ snd (fetch_feeds FetchFeed fs now db n) = n + Z.of_nat (List.length added)
    /\ feeds (fst (fetch_feeds FetchFeed fs now db n)) = feeds db
    /\ read_articles (fst (fetch_feeds FetchFeed fs now db n)) = read_articles db.
Proof.
  induction fs as [|f rest IH]; intros db n; cbn -[FetchAndStore].
  - exists []. rewrite app_nil_r. simpl. repeat split. lia.
  - destruct (FetchFeed (Feed.URL f)) as [items|].
    + unfold FetchAndStore.
      destruct (store_items_appends items (Feed.ID f) now db 0)
        as [added [Hr [Hn [_ [F1 [_ F3]]]]]].
      destruct (store_items items (Feed.ID f) now db 0) as [db' c].
      simpl in *. subst c.
      destruct (IH db' (n + Z.of_nat (List.length added)))
        as [more [Hr' [Hn' [G1 G3]]]].
      exists (added ++ more). rewrite Hr', Hn', Hr, <- app_assoc, length_app.
      repeat split; try congruence. lia.
    + simpl. apply IH.
Qed.
End FetchAllFacts.

(** X10.  FetchAllFeeds does what it would do if the enabled feeds whose
    fetch fails were not there; it never fetches a disabled feed (it is the
    same for two fetchers that agree on the enabled feeds); it only appends
    article rows, and the total it returns is the number appended. *)
Theorem FetchAllFeeds_isolates_failures (FetchFeed : string -> option (list Item.t))
    (now : Time) (db : DB) :
  FetchAllFeeds FetchFeed now db
  = fetch_feeds FetchFeed (filter (answers FetchFeed) (GetEnabledFeeds db)) now db 0
  /\ (forall F' : string -> option (list Item.t),
         (forall f, In f (feeds db) -> Feed.Enabled f = true ->
                    F' (Feed.URL f) = FetchFeed (Feed.URL f)) ->
         FetchAllFeeds F' now db = FetchAllFeeds FetchFeed now db)
  /\ (exists added,
         articles (fst (FetchAllFeeds FetchFeed now db)) = articles db ++ added
         /\ snd (FetchAllFeeds FetchFeed now db) = Z.of_nat (List.length added)
         /\ feeds (fst (FetchAllFeeds FetchFeed now db)) = feeds db
         /\ read_articles (fst (FetchAllFeeds FetchFeed now db)) = read_articles db).
Proof.
  unfold FetchAllFeeds. split; [apply fetch_feeds_skips_failures | split].
  - intros F' H. apply fetch_feeds_ext. intros f Hf.
    unfold GetEnabledFeeds in Hf. apply (Permutation_in _ (sort_feeds_perm _)) in Hf.
    apply filter_In in Hf. now apply H.
  - destruct (fetch_feeds_appends FetchFeed (GetEnabledFeeds db) now db 0)
      as [added H]. exists added. exact H.
Qed.

(** ** Provider requests and the frame of scoring (internal/ai) *)

Section RequestFacts.
Variable provider : Log -> string -> option (list float).
Variable json_Unmarshal : list Byte.byte -> option (list float).
Variable json_Marshal : list float -> list Byte.byte.

Local Abbreviation score_interests :=
  (ai.score_interests provider json_Unmarshal json_Marshal).
Local Abbreviation ScoreArticle :=
  (ai.ScoreArticle provider json_Unmarshal json_Marshal).
Local Abbreviation score_articles :=
  (ai.score_articles provider json_Unmarshal json_Marshal).
Local Abbreviation ScoreAllUnscored :=
  (ai.ScoreAllUnscored provider json_Unmarshal json_Marshal).
Local Abbreviation decodable := (decodable json_Unmarshal).

Lemma score_interests_requests (articleEmb : list float)
    (interests : list UserInterest.t) :
  Forall decodable interests ->
  forall (s w : float) (log : Log),
    snd (score_interests articleEmb interests s w log) = log ++ uncached interests.
Proof.
  induction 1 as [|i rest Hi Hrest IH]; intros s w log; simpl.
  - now rewrite app_nil_r.
  - unfold uncached. simpl.
    destruct (UserInterest.Embedding i) as [|b bs] eqn:He; simpl.
    + unfold GetEmbedding.
      destruct (provider log (UserInterest.Description i)) as [e|];
        rewrite IH; unfold uncached; now rewrite <- app_assoc.
    + destruct Hi as [Hi | [e Hi]]; [congruence|].
      rewrite He in Hi. rewrite Hi. apply IH.
Qed.

(** X11.  ScoreArticle asks the provider for the article text first; if
    that fails it returns score 0 with an error and asks nothing else;
    otherwise, every cached embedding decoding, it then asks once for each
    interest that has no cached embedding, in order, and never for one
    that has. *)
Theorem ScoreArticle_requests (article : Article.t)
    (interests : list UserInterest.t) (log : Log) :
  (provider log (articleText article) = None ->
   ScoreArticle article interests log
   = ((0%float, Some ErrGettingArticleEmbedding), log ++ [articleText article]))
  /\ (forall articleEmb : list float,
         provider log (articleText article) = Some articleEmb ->
         Forall decodable interests ->
         snd (ScoreArticle article interests log)
         = log ++ articleText article :: uncached interests).
Proof.
  unfold ai.ScoreArticle, GetEmbedding. split.
  - intros H. now rewrite H.
  - intros articleEmb H Hd. rewrite H.
    pose proof (score_interests_requests articleEmb interests Hd 0%float 0%float
                  (log ++ [articleText article])) as Hr.
    destruct (score_interests articleEmb interests 0%float 0%float
                (log ++ [articleText article])) as [[[s w]|e] log'];
      simpl in Hr; subst log'.
    + destruct (PrimFloat.eqb w 0%float); simpl; now rewrite <- app_assoc.
    + simpl. now rewrite <- app_assoc.
Qed.

Lemma UpdateArticleRelevance_frame (db : DB) (id : Z) (s : float) :
  feeds (UpdateArticleRelevance db id s) = feeds db
  /\ read_articles (UpdateArticleRelevance db id s) = read_articles db
  /\ articles_seq (UpdateArticleRelevance db id s) = articles_seq db
  /\ map unscored (articles (UpdateArticleRelevance db id s))
     = map unscored (articles db).
Proof.
  repeat split. unfold UpdateArticleRelevance. simpl. rewrite map_map.
  apply map_ext. intros a. destruct (Article.ID a =? id); reflexivity.
Qed.

Lemma UpdateArticleRelevance_other (db : DB) (id : Z) (s : float) (a : Article.t) :
  In a (articles db) -> Article.ID a <> id ->
  In a (articles (UpdateArticleRelevance db id s)).
Proof.
  intros Ha Hne. unfold UpdateArticleRelevance. simpl. apply in_map_iff.
  exists a. split; [|exact Ha].
  destruct (Article.ID a =? id) eqn:E; [|reflexivity].
  apply Z.eqb_eq in E. contradiction.
Qed.

Lemma score_articles_frame (interests : list UserInterest.t) (rows : list Article.t) :
  forall (db : DB) (log : Log),
    feeds (fst (score_articles interests rows db log)) = feeds db
    /\ read_articles (fst (score_articles interests rows db log)) = read_articles db
    /\ articles_seq (fst (score_articles interests rows db log)) = articles_seq db
    /\ map unscored (articles (fst (score_articles interests rows db log)))
       = map unscored (articles db).
Proof.
  induction rows as [|a rows IH]; intros db log; simpl; [repeat split|].
  destruct (PrimFloat.ltb 0%float (Article.RelevanceScore a)); [apply IH|].
  destruct (ScoreArticle a interests log) as [[s [e|]] log']; [apply IH|].
  destruct (IH (UpdateArticleRelevance db (Article.ID a) s) log') as [F1 [F2 [F3 F4]]].
  destruct (UpdateArticleRelevance_frame db (Article.ID a) s) as [G1 [G2 [G3 G4]]].
  repeat split; congruence.
Qed.

Lemma score_articles_untouched (interests : list UserInterest.t)
    (rows : list Article.t) (a : Article.t) :
  (forall b, In b rows -> PrimFloat.ltb 0%float (Article.RelevanceScore b) = false ->
             Article.ID b <> Article.ID a) ->
  forall (db : DB) (log : Log),
    In a (articles db) ->
    In a (articles (fst (score_articles interests rows db log))).
Proof.
  induction rows as [|b rows IH]; intros H db log Ha; simpl; [exact Ha|].
  assert (H' : forall c, In c rows ->
                 PrimFloat.ltb 0%float (Article.RelevanceScore c) = false ->
                 Article.ID c <> Article.ID a)
    by (intros c Hc; apply H; now right).
  destruct (PrimFloat.ltb 0%float (Article.RelevanceScore b)) eqn:Hb;
    [now apply IH|].
  destruct (ScoreArticle b interests log) as [[s [e|]] log']; [now apply IH|].
  apply IH; [exact H'|]. apply UpdateArticleRelevance_other; [exact Ha|].
  intros E. apply (H b (or_introl eq_refl) Hb). now symmetry.
Qed.

(** X12.  ScoreAllUnscored changes nothing but relevance scores: feeds,
    read markers, interests and the counter are as before and so is every
    article apart from its score; without interests it does nothing at
    all; and, ids being unique, an article whose score is above 0, or that
    is read, is left exactly as it is. *)
Theorem ScoreAllUnscored_touches_scores_only (db : DB) (now : Time) (days : Z)
    (log : Log) :
  (feeds (fst (ScoreAllUnscored db now days log)) = feeds db
   /\ read_articles (fst (ScoreAllUnscored db now days log)) = read_articles db
   /\ user_interests (fst (ScoreAllUnscored db now days log)) = user_interests db
   /\ articles_seq (fst (ScoreAllUnscored db now days log)) = articles_seq db
   /\ map unscored (articles (fst (ScoreAllUnscored db now days log)))
      = map unscored (articles db))
  /\ (user_interests db = [] -> ScoreAllUnscored db now days log = (db, log))
  /\ (NoDup (map Article.ID (articles db)) ->
      forall a : Article.t,
        In a (articles db) ->
        PrimFloat.ltb 0%float (Article.RelevanceScore a) = true
        \/ is_read db (Article.ID a) = true ->
        In a (articles (fst (ScoreAllUnscored db now days log)))).
Proof.
  split; [|split].
  - pose proof (ScoreAllUnscored_interests provider json_Unmarshal json_Marshal
                  db now days log) as Hi.
    unfold ai.ScoreAllUnscored, GetInterests in *.
    destruct (user_interests db) as [|i rest]; [repeat split; exact Hi|].
    destruct (score_articles_frame (i :: rest)
                (GetUnreadArticles db now (wrap64 (days * 24 * Hour))) db log)
      as [F1 [F2 [F3 F4]]].
    repeat split; assumption.
  - intros H. unfold ai.ScoreAllUnscored, GetInterests. now rewrite H.
  - intros Hid a Ha Hskip. unfold ai.ScoreAllUnscored, GetInterests.
    destruct (user_interests db) as [|i rest]; [exact Ha|].
    apply score_articles_untouched; [|exact Ha].
    intros b Hb Hscore He. apply In_GetUnreadArticles in Hb.
    destruct Hb as [Hb [Hr Hc]].
    assert (b = a) by (apply (same_id_same_row _ _ _ Hid Hb Ha He)). subst b.
    destruct Hskip as [H | H]; congruence.
Qed.

(** X13.  If the provider fails on every request, ScoreAllUnscored leaves
    the store exactly as it is. *)
Theorem ScoreAllUnscored_outage_changes_nothing (db : DB) (now : Time) (days : Z)
    (log : Log) :
  (forall (l : Log) (text : string), provider l text = None) ->
  fst (ScoreAllUnscored db now days log) = db.
Proof.
  intros Hout. unfold ai.ScoreAllUnscored, GetInterests.
  destruct (user_interests db) as [|i rest]; [reflexivity|].
  generalize (GetUnreadArticles db now (wrap64 (days * 24 * Hour))). intros rows.
  revert log. induction rows as [|a rows IH]; intros log; simpl; [reflexivity|].
  destruct (PrimFloat.ltb 0%float (Article.RelevanceScore a)); [apply IH|].
  unfold ai.ScoreArticle, GetEmbedding. rewrite Hout. apply IH.
Qed.

End RequestFacts.

(** ** Adding interests (internal/ai, internal/database) *)

Lemma max_id_bound (ids : list Z) (k : Z) :
  In k ids -> k <= fold_right Z.max 0 ids.
Proof.
  induction ids as [|i ids IH]; simpl; [tauto|].
  intros [-> | H]; [lia | specialize (IH H); lia].
Qed.

Section InterestFacts.
Variable provider : Log -> string -> option (list float).
Variable json_Marshal : list float -> list Byte.byte.

Local Abbreviation AddInterest := (ai.AddInterest provider json_Marshal).

(** X14.  AddInterest of the client does nothing, and asks the provider
    nothing, when an interest with that description exists; otherwise it
    asks the provider once and appends one interest with a fresh id, with
    the embedding when the request succeeded and without one when it
    failed.  Adding the same description again changes nothing, distinct
    descriptions stay distinct, and no other table is touched. *)
Theorem AddInterest_adds_a_description_once (db : DB) (description : string)
    (weight : float) (log : Log) :
  (has_interest db description = true ->
   AddInterest db description weight log = (db, log))
  /\ (has_interest db description = false ->
      snd (AddInterest db description weight log) = log ++ [description]
      /\ user_interests (fst (AddInterest db description weight log))
         = user_interests db
             ++ [UserInterest.mk (next_interest_id db) description weight
                   match provider log description with
                   | Some e => json_Marshal e
                   | None => []
                   end]
      /\ Forall (fun i => UserInterest.ID i < next_interest_id db)
                (user_interests db))
  /\ (forall (weight' : float),
         AddInterest (fst (AddInterest db description weight log)) description
                     weight' (snd (AddInterest db description weight log))
         = AddInterest db description weight log)
  /\ (NoDup (map UserInterest.Description (user_interests db)) ->
      NoDup (map UserInterest.Description
                 (user_interests (fst (AddInterest db description weight log)))))
  /\ articles (fst (AddInterest db description weight log)) = articles db
  /\ feeds (fst (AddInterest db description weight log)) = feeds db
  /\ read_articles (fst (AddInterest db description weight log)) = read_articles db.
Proof.
  unfold ai.AddInterest, GetInterests, GetEmbedding.
  fold (has_interest db description).
  destruct (has_interest db description) eqn:Hh.
  - repeat match goal with |- _ /\ _ => split end; try reflexivity; try discriminate.
    + intros w'. simpl. fold (has_interest db description). now rewrite Hh.
    + trivial.
  - repeat match goal with |- _ /\ _ => split end; try reflexivity; try discriminate.
    + intros _. repeat match goal with |- _ /\ _ => split end.
      * reflexivity.
      * simpl. now destruct (provider log description).
      * rewrite Forall_forall. intros i Hi. unfold next_interest_id.
        assert (UserInterest.ID i
                <= fold_right Z.max 0 (map UserInterest.ID (user_interests db)))
          by (apply max_id_bound; now apply in_map).
        lia.
    + intros w'. destruct (provider log description) as [e|]; simpl;
        rewrite existsb_app; simpl; now rewrite String.eqb_refl, orb_true_r.
    + intros Hn. simpl. rewrite map_app. apply NoDup_app; [exact Hn | |].
      * repeat constructor. auto.
      * intros d Hd Hd'. simpl in Hd'.
        assert (d = description)
          by (destruct (provider log description); simpl in Hd';
              destruct Hd' as [<- | []]; reflexivity).
        subst d. apply in_map_iff in Hd. destruct Hd as [i [He Hi]].
        assert (has_interest db description = true); [|congruence].
        unfold has_interest. apply existsb_exists. exists i. split; [exact Hi|].
        now apply String.eqb_eq.
Qed.
End InterestFacts.

(** ** More on cosine similarity (internal/ai) *)

Lemma SFmul_comm (prec emax : Z) (x y : spec_float) :
  SFmul prec emax x y = SFmul prec emax y x.
Proof.
  destruct x as [sx|sx| |sx mx ex], y as [sy|sy| |sy my ey]; simpl;
    try reflexivity; try (now rewrite xorb_comm).
  now rewrite xorb_comm, Pos.mul_comm, Z.add_comm.
Qed.

Lemma float_mul_comm (x y : float) : (x * y = y * x)%float.
Proof.
  apply Prim2SF_inj. rewrite !mul_spec. apply SFmul_comm.
Qed.

Section Symmetry.
Context {F : Type} {arith : Arith F}.
Hypothesis f_mul_comm : forall x y : F, f_mul x y = f_mul y x.

Lemma sums_swap (a : list F) :
  forall (b : list F) (d na nb : F),
    sums b a d nb na
    = let '(d', na', nb') := sums a b d na nb in (d', nb', na').
Proof.
  induction a as [|x a IH]; intros [|y b] d na nb; simpl; try reflexivity.
  rewrite IH, (f_mul_comm y x). reflexivity.
Qed.

Lemma CosineSimilarity_sym_generic (a b : list F) :
  CosineSimilarity a b = CosineSimilarity b a.
Proof.
  unfold CosineSimilarity. rewrite (Nat.eqb_sym (List.length b)).
  destruct (List.length a =? List.length b)%nat; simpl; [|reflexivity].
  rewrite (sums_swap a b).
  destruct (sums a b f_zero f_zero f_zero) as [[d na] nb].
  rewrite (orb_comm (f_eqb nb f_zero)), (f_mul_comm (f_sqrt nb)). reflexivity.
Qed.
End Symmetry.

(** X15.  CosineSimilarity is symmetric, exactly: in binary64 as in real
    arithmetic, swapping the two vectors gives the same result. *)
Theorem CosineSimilarity_symmetric :
  (forall a b : list float, CosineSimilarity a b = CosineSimilarity b a)
  /\ (forall a b : list R, CosineSimilarity a b = CosineSimilarity b a).
Proof.
  split; intros a b; apply CosineSimilarity_sym_generic.
  - exact float_mul_comm.
  - exact Rmult_comm.
Qed.

(** The squared norm the loop accumulates for its first vector does not
    depend on the second one, lengths being equal. *)
Lemma sums_normA {F : Type} {arith : Arith F} (a : list F) :
  forall (b : list F) (d na nb : F),
    List.length a = List.length b ->
    snd (fst (sums a b d na nb))
    = fold_left (fun acc x => f_add acc (f_mul x x)) a na.
Proof.
  induction a as [|x a IH]; intros [|y b] d na nb Hl; simpl in *;
    try discriminate; [reflexivity|].
  apply IH. lia.
Qed.

Lemma zero_norm (a : list float) :
  Forall is_zero a ->
  fold_left (fun acc x => (acc + x * x)%float) a 0%float = 0%float.
Proof.
  induction 1 as [|x a Hx Ha IH]; simpl; [reflexivity|].
  destruct Hx as [-> | ->]; exact IH.
Qed.

(** X16.  In binary64, if every component of one of the vectors is 0 or
    -0, CosineSimilarity is 0: the division by a zero norm never happens. *)
Theorem CosineSimilarity_zero_vector (a b : list float) :
  Forall is_zero a \/ Forall is_zero b ->
  CosineSimilarity a b = 0%float.
Proof.
  assert (H : forall a b : list float, Forall is_zero a ->
                CosineSimilarity a b = 0%float).
  { clear a b. intros a b Ha. unfold CosineSimilarity.
    destruct (List.length a =? List.length b)%nat eqn:Hl; cbn [negb];
      [|reflexivity].
    apply Nat.eqb_eq in Hl.
    pose proof (sums_normA a b f_zero f_zero f_zero Hl) as Hn.
    destruct (sums a b f_zero f_zero f_zero) as [[d na] nb].
    cbn [fst snd] in Hn. rewrite Hn.
    change (fold_left (fun acc x : float => f_add acc (f_mul x x)) a f_zero)
      with (fold_left (fun acc x : float => (acc + x * x)%float) a 0%float).
    rewrite (zero_norm a Ha). reflexivity. }
  intros [Ha | Hb]; [now apply H|].
  rewrite (CosineSimilarity_sym_generic (arith := float64) float_mul_comm a b).
  now apply H.
Qed.

(** ** Deleting a feed (internal/database) *)

(** X18.  DeleteFeed on a store that meets the schema.  On either kind
    of connection the feed is removed and the other feeds stay in order.
    On the connection that has foreign keys on, the articles of that feed
    and the read markers of those articles go with it, and nothing else:
    the other articles stay in order, a marker stays exactly when its
    article is of another feed, and, the scores of the store being
    numbers, the unread articles are those of before that are not of the
    deleted feed.  On a connection that has them off, every article and
    every marker stays. *)
Theorem DeleteFeed_cascades (db : DB) (id : Z) :
  schema_ok db ->
  (forall fk : bool,
      has_feed (DeleteFeed fk db id) id = false
      /\ feeds (DeleteFeed fk db id)
         = filter (fun f => negb (Feed.ID f =? id)) (feeds db))
  /\ articles (DeleteFeed true db id)
     = filter (fun a => negb (Article.FeedID a =? id)) (articles db)
  /\ (forall r, In r (read_articles (DeleteFeed true db id)) <->
                In r (read_articles db)
                /\ exists a, In a (articles db)
                             /\ Article.ID a = ReadArticle.ArticleID r
                             /\ Article.FeedID a <> id)
  /\ (no_nan_score (articles db) ->
      forall now maxAge a,
        In a (GetUnreadArticles (DeleteFeed true db id) now maxAge) <->
        In a (GetUnreadArticles db now maxAge) /\ Article.FeedID a <> id)
  /\ (articles (DeleteFeed false db id) = articles db
      /\ read_articles (DeleteFeed false db id) = read_articles db).
Proof.
  intros Hok.
  assert (Hno : has_feed db id = false ->
                forall a, In a (articles db) -> (Article.FeedID a =? id) = false).
  { intros Hf a Ha. pose proof (article_feed db Hok) as Hfk.
    rewrite Forall_forall in Hfk. specialize (Hfk a Ha).
    destruct (Article.FeedID a =? id) eqn:E; [|reflexivity].
    apply Z.eqb_eq in E. congruence. }
  assert (Hfeeds : forall fk, feeds (DeleteFeed fk db id)
                   = filter (fun f => negb (Feed.ID f =? id)) (feeds db)).
  { intros fk. unfold DeleteFeed. destruct (fk && has_feed db id); reflexivity. }
  assert (Harts : articles (DeleteFeed true db id)
                  = filter (fun a => negb (Article.FeedID a =? id)) (articles db)).
  { unfold DeleteFeed. cbn [andb]. destruct (has_feed db id) eqn:Hf; [reflexivity|].
    simpl.
    symmetry. specialize (Hno eq_refl).
    clear - Hno. induction (articles db) as [|a l IH]; simpl in *; [reflexivity|].
    rewrite (Hno a (or_introl eq_refl)). simpl. rewrite IH; [reflexivity|].
    intros b Hb. apply Hno. now right. }
  assert (Hmark : forall r, In r (read_articles (DeleteFeed true db id)) <->
                  In r (read_articles db)
                  /\ exists a, In a (articles db)
                               /\ Article.ID a = ReadArticle.ArticleID r
                               /\ Article.FeedID a <> id).
  { intros r. pose proof (marker_article db Hok) as Hma.
    rewrite Forall_forall in Hma. pose proof (ids_unique db Hok) as Hid.
    assert (Hex : In r (read_articles db) ->
                  exists a, In a (articles db)
                            /\ Article.ID a = ReadArticle.ArticleID r)
      by (intros Hr; apply has_article_In; now apply Hma).
    unfold DeleteFeed. cbn [andb]. destruct (has_feed db id) eqn:Hf.
    - simpl. rewrite filter_In, negb_true_iff. split.
      + intros [Hr Hk]. split; [exact Hr|]. destruct (Hex Hr) as [a [Ha He]].
        exists a. repeat split; trivial. intros Hfe.
        assert (existsb (fun a0 => (Article.FeedID a0 =? id)
                                   && (Article.ID a0 =? ReadArticle.ArticleID r))
                        (articles db) = true); [|congruence].
        apply existsb_exists. exists a. split; [exact Ha|].
        apply andb_true_iff. split; now apply Z.eqb_eq.
      + intros [Hr [a [Ha [He Hfe]]]]. split; [exact Hr|].
        destruct (existsb _ (articles db)) eqn:Hx; [|reflexivity].
        apply existsb_exists in Hx. destruct Hx as [b [Hb Hbb]].
        apply andb_true_iff in Hbb. destruct Hbb as [H1 H2].
        apply Z.eqb_eq in H1, H2.
        assert (b = a) by (apply (same_id_same_row _ _ _ Hid Hb Ha); lia).
        subst b. contradiction.
    - split.
      + intros Hr. split; [exact Hr|]. destruct (Hex Hr) as [a [Ha He]].
        exists a. repeat split; trivial.
        specialize (Hno eq_refl a Ha). now apply Z.eqb_neq.
      + tauto. }
  split; [|repeat match goal with |- _ /\ _ => split end; trivial].
  - intros fk. split; [|apply Hfeeds].
    unfold has_feed. rewrite Hfeeds.
    destruct (existsb _ (filter _ (feeds db))) eqn:E; [|reflexivity].
    apply existsb_exists in E. destruct E as [f [Hf He]].
    apply filter_In in Hf. destruct Hf as [_ Hk]. rewrite He in Hk. discriminate.
  - intros _ now maxAge a. rewrite !In_GetUnreadArticles, Harts, filter_In,
      negb_true_iff, Z.eqb_neq.
    split.
    + intros [[Ha Hfe] [Hr Hc]]. repeat split; trivial.
      destruct (is_read db (Article.ID a)) eqn:Hr'; [|reflexivity].
      exfalso. unfold is_read in Hr'. apply existsb_exists in Hr'.
      destruct Hr' as [r [Hr1 Hr2]]. apply Z.eqb_eq in Hr2.
      assert (is_read (DeleteFeed true db id) (Article.ID a) = true); [|congruence].
      unfold is_read. apply existsb_exists. exists r. split; [|now apply Z.eqb_eq].
      apply Hmark. split; [exact Hr1|]. exists a. repeat split; trivial. lia.
    + intros [[Ha [Hr Hc]] Hfe]. repeat split; trivial.
      destruct (is_read (DeleteFeed true db id) (Article.ID a)) eqn:Hr'; [|reflexivity].
      unfold is_read in Hr'. apply existsb_exists in Hr'.
      destruct Hr' as [r [Hr1 Hr2]]. apply Hmark in Hr1. destruct Hr1 as [Hr1 _].
      assert (is_read db (Article.ID a) = true); [|congruence].
      unfold is_read. apply existsb_exists. exists r. now split.
Qed.

(** ** The properties above at the worked data *)

Lemma schema_ok_store7 : schema_ok store7.
Proof.
  constructor; simpl; repeat constructor; simpl;
    try (intuition discriminate); try lia.
Qed.

Lemma schema_ok_store_ranked : schema_ok store_ranked.
Proof.
  constructor; simpl; repeat constructor; simpl;
    try (intuition discriminate); try lia.
Qed.

Lemma GetUnreadArticles_ranks_unread_rows_witness :
  no_nan_score (articles store_ranked)
  /\ map Article.ID (GetUnreadArticles store_ranked 1000 950) = [2; 1; 3]
  /\ (forall a b : Article.t,
         nth_error (GetUnreadArticles store_ranked 1000 950) 0 = Some a ->
         nth_error (GetUnreadArticles store_ranked 1000 950) 2 = Some b ->
         PrimFloat.leb (score b) (score a) = true).
Proof.
  assert (H : no_nan_score (articles store_ranked))
    by (repeat constructor).
  split; [exact H | split; [vm_compute; reflexivity|]].
  intros a b Ha Hb.
  assert (Hlt : (0 < 2)%nat) by lia.
  exact (proj1 (proj2 (proj2 (proj2 (GetUnreadArticles_ranks_unread_rows
                                       store_ranked 1000 950 H)))
                      0%nat 2%nat a b Hlt Ha Hb)).
Defined.

Lemma markReadAndDelete_removes_the_article_witness :
  has_article (tui.markReadAndDelete false false store_ranked 500 2) 2 = false
  /\ map Article.ID (articles store_ranked) = [1; 2; 3; 4; 5]
  /\ map Article.ID (articles (tui.markReadAndDelete false false store_ranked 500 2))
     = [1; 3; 5].
Proof.
  split; [|split; reflexivity].
  exact (proj1 (markReadAndDelete_removes_the_article false false store_ranked 500 2)).
Defined.

Lemma deleteOldArticles_keeps_the_working_set_witness :
  snd (tui.deleteOldArticles false true store_purge (100 * Hour) (101 * Hour) 1)
  = tui.loadArticles store_purge (101 * Hour) 1
  /\ map Article.ID (articles store_purge) = [1; 2; 3]
  /\ map Article.ID
         (articles (fst (tui.deleteOldArticles false true store_purge
                                               (100 * Hour) (101 * Hour) 1)))
     = [1]
  /\ map Article.ID (tui.loadArticles store_purge (101 * Hour) 1) = [1].
Proof.
  assert (Hid : NoDup (map Article.ID (articles store_purge))).
  { simpl. repeat constructor; simpl; intuition discriminate. }
  assert (Hn : no_nan_score (articles store_purge)) by (repeat constructor).
  assert (H : 100 * Hour <= 101 * Hour) by (unfold Hour; lia).
  split; [|repeat split; vm_compute; reflexivity].
  exact (proj1 (deleteOldArticles_keeps_the_working_set
                  false true store_purge (100 * Hour) (101 * Hour) 1 Hid Hn H)).
Defined.

Lemma AddArticle_rejects_a_stored_url_witness :
  filter (fun b => String.eqb (Article.URL b) (Article.URL article_new))
         (articles (fst (AddArticle store7 100 article_new)))
  = [Article.with_row (articles_seq store7 + 1) 100 article_new].
Proof.
  apply (proj2 AddArticle_rejects_a_stored_url store7 _ 100 article_new
               schema_ok_store7).
  reflexivity.
Defined.

Lemma GetArticleByID_after_AddArticle_witness :
  GetArticleByID (fst (AddArticle store7 100 article_new)) 8
  = Some (Article.mk 8 1 "New" "https://example.org/new" "body" "summary" 70 100 0%float)
  /\ GetArticleByID (fst (AddArticle store7 100 article_new)) 7 = Some article7.
Proof.
  destruct (GetArticleByID_after_AddArticle
              store7 (fst (AddArticle store7 100 article_new)) 100 article_new
              schema_ok_store7 eq_refl) as [H1 [_ H3]].
  split; [exact H1|].
  rewrite (H3 7); [reflexivity | discriminate].
Defined.

Lemma GetArticleByID_after_UpdateArticleRelevance_witness :
  GetArticleByID (UpdateArticleRelevance store7 7 0.75%float) 7
  = Some (Article.with_RelevanceScore 0.75%float article7)
  /\ GetArticleByID (UpdateArticleRelevance store7 7 (-0)%float) 7
     = Some (Article.with_RelevanceScore 0%float article7)
  /\ UpdateArticleRelevance store7 9 0.75%float = store7.
Proof.
  assert (Hn : no_nan_score (articles store7)) by (repeat constructor).
  split; [|split].
  - rewrite (proj1 (GetArticleByID_after_UpdateArticleRelevance
                      store7 7 0.75%float eq_refl Hn) 7).
    reflexivity.
  - rewrite (proj1 (GetArticleByID_after_UpdateArticleRelevance
                      store7 7 (-0)%float eq_refl Hn) 7).
    reflexivity.
  - apply (GetArticleByID_after_UpdateArticleRelevance store7 9 0.75%float eq_refl Hn).
    reflexivity.
Defined.

Lemma FetchAllFeeds_isolates_failures_witness :
  FetchAllFeeds fetch_example 100 store_three_feeds
  = fetch_feeds fetch_example [feed1] 100 store_three_feeds 0
  /\ FetchAllFeeds (fun url => if String.eqb url (Feed.URL feed_off)
                               then None else fetch_example url)
                   100 store_three_feeds
     = FetchAllFeeds fetch_example 100 store_three_feeds
  /\ map Article.URL (articles (fst (FetchAllFeeds fetch_example 100 store_three_feeds)))
     = ["https://example.org/a"%string]
  /\ snd (FetchAllFeeds fetch_example 100 store_three_feeds) = 1.
Proof.
  split; [|split; [|split; reflexivity]].
  - exact (proj1 (FetchAllFeeds_isolates_failures fetch_example 100 store_three_feeds)).
  - apply (proj1 (proj2 (FetchAllFeeds_isolates_failures
                           fetch_example 100 store_three_feeds))).
    intros f [<- | [<- | [<- | []]]] He; try reflexivity. discriminate.
Defined.

Lemma ScoreArticle_requests_witness :
  snd (example_ScoreArticle article7
         [golang_uncached; cooking_cached; offline_uncached] [])
  = [] ++ articleText article7
       :: uncached [golang_uncached; cooking_cached; offline_uncached].
Proof.
  apply (proj2 (ScoreArticle_requests example_provider example_Unmarshal
                  example_Marshal article7
                  [golang_uncached; cooking_cached; offline_uncached] [])
               [1%float; 0%float] eq_refl).
  constructor; [left; reflexivity|].
  constructor; [right; eexists; vm_compute; reflexivity|].
  constructor; [left; reflexivity | constructor].
Defined.

Lemma ScoreAllUnscored_touches_scores_only_witness :
  In (fresh 1 "Scored" 0.5%float)
     (articles (fst (example_ScoreAllUnscored store_half_scored (100 * Hour) 1 [])))
  /\ map Article.RelevanceScore (articles store_half_scored) = [0.5%float; 0%float]
  /\ map Article.RelevanceScore
         (articles (fst (example_ScoreAllUnscored store_half_scored (100 * Hour) 1 [])))
     = [0.5%float; (-1)%float].
Proof.
  split; [|split; vm_compute; reflexivity].
  apply (proj2 (proj2 (ScoreAllUnscored_touches_scores_only
                         example_provider example_Unmarshal example_Marshal
                         store_half_scored (100 * Hour) 1 []))).
  - simpl. repeat constructor; simpl; intuition discriminate.
  - left. reflexivity.
  - left. vm_compute. reflexivity.
Defined.

Lemma ScoreAllUnscored_outage_changes_nothing_witness :
  fst (ScoreAllUnscored provider_down example_Unmarshal example_Marshal
                        store_contrarian (100 * Hour) 1 [])
  = store_contrarian.
Proof.
  apply (ScoreAllUnscored_outage_changes_nothing
           provider_down example_Unmarshal example_Marshal).
  reflexivity.
Defined.

Lemma AddInterest_adds_a_description_once_witness :
  ai.AddInterest example_provider example_Marshal store_contrarian
                 "contrarian" 3%float []
  = (store_contrarian, [])
  /\ snd (ai.AddInterest example_provider example_Marshal store_contrarian
                         "offline" 3%float [])
     = [] ++ ["offline"%string].
Proof.
  split.
  - apply (proj1 (AddInterest_adds_a_description_once
                    example_provider example_Marshal store_contrarian
                    "contrarian" 3%float [])).
    reflexivity.
  - apply (proj1 (proj2 (AddInterest_adds_a_description_once
                           example_provider example_Marshal store_contrarian
                           "offline" 3%float []))).
    reflexivity.
Defined.

Lemma CosineSimilarity_zero_vector_witness :
  CosineSimilarity [0%float; (-0)%float] [1%float; 2%float] = 0%float.
Proof.
  apply CosineSimilarity_zero_vector. left.
  constructor; [left; reflexivity|].
  constructor; [right; reflexivity | constructor].
Defined.

Lemma DeleteFeed_cascades_witness :
  has_feed (DeleteFeed true store_ranked 1) 1 = false
  /\ articles (DeleteFeed true store_ranked 1) = []
  /\ read_articles (DeleteFeed true store_ranked 1) = []
  /\ has_feed (DeleteFeed false store_ranked 1) 1 = false
  /\ articles (DeleteFeed false store_ranked 1) = articles store_ranked
  /\ read_articles (DeleteFeed false store_ranked 1) = [ReadArticle.mk 4 400].
Proof.
  pose proof (proj1 (DeleteFeed_cascades store_ranked 1 schema_ok_store_ranked)) as H.
  repeat split; try reflexivity; apply H.
Defined.
